(** * PDF Forge Pro licensing API: tokens, license store and payment handlers

    A shallow embedding of [license.js], [store.js], [stripe.js] and the
    handlers of [server.js].

    - Instants ([Date], ISO-8601 strings such as [purchasedAt]) are the
      integer number of milliseconds since the epoch: [toISOString] and
      [new Date(iso)] are inverse to each other on them.
    - [Date.now()] and [Math.random()] are read from oracles carried by
      the world, one reading per call, in the order the code makes them.
    - [jsonwebtoken] and the Stripe client are external libraries: the
      first is a pair of functions between claims and strings with the
      one law that verification under the secret recovers what was signed,
      the second a set of lookup functions that may fail. *)

From Stdlib Require Import ZArith String Ascii List Lia.
From stdpp Require Import base option gmap strings.

Local Open Scope string_scope.
Local Open Scope Z_scope.

(** ** JavaScript values *)

(** A property that may be missing ([undefined]), [null], or present. *)
Inductive nullable (A : Type) : Type :=
| Undefined
| Null
| Val (a : A).
Arguments Undefined {A}.
Arguments Null {A}.
Arguments Val {A} a.

(** Truthiness of a string: every string but the empty one. *)
Definition truthy_string (s : string) : bool :=
  match s with
  | EmptyString => false
  | String _ _ => true
  end.

(** Truthiness of an optional string property. *)
Definition truthy (v : nullable string) : bool :=
  match v with
  | Val s => truthy_string s
  | _ => false
  end.

(** The string of a truthy property. *)
Definition present (v : nullable string) : option string :=
  match v with
  | Val s => if truthy_string s then Some s else None
  | _ => None
  end.

(** [v || d] on strings. *)
Definition or_default (v : nullable string) (d : string) : string :=
  match v with
  | Val s => if truthy_string s then s else d
  | _ => d
  end.

(** [String.prototype.charAt]: the empty string outside the range. *)
Definition charAt (s : string) (i : Z) : string :=
  if i <? 0 then ""
  else match String.get (Z.to_nat i) s with
       | Some c => String c ""
       | None => ""
       end.

(** [Array.prototype.join]. *)
Fixpoint join (sep : string) (l : list string) : string :=
  match l with
  | nil => ""
  | x :: nil => x
  | x :: rest => x +:+ sep +:+ join sep rest
  end.

(** A result of [Math.random()]: a number [numer / denom] in [0, 1). *)
Record unit_real : Type := {
  numer : Z;
  denom : Z;
  in_unit : 0 <= numer < denom
}.

(** [Math.floor(r * n)] for an integer [n]. *)
Definition floor_mul (r : unit_real) (n : Z) : Z := (numer r * n) / denom r.

(** ** Data model *)

Record TrialPayload : Type := {
  startedAt : Z;
  durationDays : Z
}.

Record LicensePayload : Type := {
  name : string;
  email : string;
  plan : string;
  purchasedAt : Z;
  expiresAt : option Z   (* [None] is [null] *)
}.

(** What the secret signs: [{...payload, type, iat}] plus the [exp] that
    [jsonwebtoken] adds for [expiresIn].  The [type] tag is ['trial'] on
    the first shape and ['license'] on the second. *)
Inductive Payload : Type :=
| Trial (p : TrialPayload)
| License (p : LicensePayload).

Record Claims : Type := {
  payload : Payload;
  iat : Z;              (* seconds *)
  exp : option Z        (* seconds; [None] when no [expiresIn] was given *)
}.

Definition type (c : Claims) : string :=
  match payload c with
  | Trial _ => "trial"
  | License _ => "license"
  end.

Record Metadata : Type := {
  paymentIntentId : nullable string;
  subscriptionId : nullable string;
  isDevelopment : nullable bool
}.

(** A value of the [licenses] map: [{ fullToken, license, metadata }]. *)
Record LicenseRecord : Type := {
  fullToken : string;
  license : LicensePayload;
  metadata : Metadata
}.

Record LicenseStore : Type := {
  licenses : gmap string LicenseRecord;
  paymentIntentIndex : gmap string string;
  subscriptionIndex : gmap string string
}.

(** ** The world and the monad of handlers *)

Inductive Error : Type :=
| JsonWebTokenError        (* malformed token or bad signature *)
| TokenExpiredError        (* [exp] reached *)
| Err (message : string).  (* [new Error(message)] *)

Inductive Result (A : Type) : Type :=
| Ok (a : A)
| Throw (e : Error).
Arguments Ok {A} a.
Arguments Throw {A} e.

Record World : Type := {
  store : LicenseStore;
  clock : nat -> Z;             (* the k-th reading of [Date.now()], in ms *)
  clock_reads : nat;
  entropy : nat -> unit_real;   (* the k-th result of [Math.random()] *)
  entropy_reads : nat
}.

Definition M (A : Type) : Type := World -> Result A * World.

Definition ret {A} (a : A) : M A := fun w => (Ok a, w).

Definition bind {A B} (m : M A) (k : A -> M B) : M B :=
  fun w =>
    match m w with
    | (Ok a, w') => k a w'
    | (Throw e, w') => (Throw e, w')
    end.

Definition throw {A} (e : Error) : M A := fun w => (Throw e, w).

(** [try { m } catch (e) { h e }]: effects of [m] up to the throw remain. *)
Definition try_catch {A} (m : M A) (h : Error -> M A) : M A :=
  fun w =>
    match m w with
    | (Ok a, w') => (Ok a, w')
    | (Throw e, w') => h e w'
    end.

Notation "x <- m ;; k" := (bind m (fun x => k))
  (at level 100, m at next level, right associativity).

Definition Date_now : M Z :=
  fun w => (Ok (clock w (clock_reads w)),
            {| store := store w; clock := clock w;
               clock_reads := S (clock_reads w);
               entropy := entropy w; entropy_reads := entropy_reads w |}).

Definition Math_random : M unit_real :=
  fun w => (Ok (entropy w (entropy_reads w)),
            {| store := store w; clock := clock w;
               clock_reads := clock_reads w;
               entropy := entropy w;
               entropy_reads := S (entropy_reads w) |}).

Definition get_store : M LicenseStore := fun w => (Ok (store w), w).

Definition put_store (s : LicenseStore) : M unit :=
  fun w => (Ok tt,
            {| store := s; clock := clock w; clock_reads := clock_reads w;
               entropy := entropy w; entropy_reads := entropy_reads w |}).

Definition exec {A} (m : M A) (w : World) : World := snd (m w).
Definition eval {A} (m : M A) (w : World) : Result A := fst (m w).

(** ** Objects of the payment processor *)

Record Customer : Type := {
  customer_name : nullable string;
  customer_email : nullable string
}.

Record PaymentIntent : Type := {
  pi_id : string;
  pi_status : string;
  pi_customer : nullable string;
  pi_metadata_name : nullable string;    (* [metadata?.name] *)
  pi_metadata_email : nullable string    (* [metadata?.email] *)
}.

Record Subscription : Type := {
  sub_id : string;
  sub_status : string;
  sub_customer : nullable string;
  sub_current_period_end : Z;                 (* seconds *)
  sub_metadata_customerName : nullable string;
  sub_metadata_customerEmail : nullable string
}.

Record Invoice : Type := {
  inv_subscription : nullable string;
  inv_customer_name : nullable string;
  inv_customer_email : nullable string
}.

(** A webhook event whose signature has been checked, by [event.type]
    with its [event.data.object]. *)
Inductive Event : Type :=
| payment_intent_succeeded (o : PaymentIntent)
| invoice_payment_succeeded (o : Invoice)
| customer_subscription_created (o : Subscription)
| customer_subscription_updated (o : Subscription)
| customer_subscription_deleted (o : Subscription)
| unhandled (event_type : string).

Record CustomerInfo : Type := {
  info_name : nullable string;
  info_email : nullable string
}.

(** The object [verifyStripePayment] resolves to. *)
Record Verification : Type := {
  success : bool;
  customerInfo : nullable CustomerInfo
}.

(** ** Responses *)

Inductive Body : Type :=
| failure (error : string)                      (* [{ ok: false, error }] *)
| verified (token : string) (lic : LicensePayload)
                                     (* [{ ok: true, fullToken, license }] *)
| redeemed (token : string)                   (* [{ ok: true, fullToken }] *)
| issued (token licenseKey : string) (licenseMeta : LicensePayload)
                     (* [{ ok: true, fullToken, licenseKey, licenseMeta }] *)
| received.                                       (* [{ received: true }] *)

Record Response : Type := {
  status : Z;
  body : Body
}.

Section Program.

(** ** license.js *)

(** [jsonwebtoken] under the process-wide [SECRET]: the compact
    serialisation of signed claims, and the signature check with the
    parse ([None]: malformed or wrongly signed). *)
Variable jws_encode : Claims -> string.
Variable jws_decode : string -> option Claims.

(** [jwt.sign(obj, SECRET, { expiresIn })], [expiresIn] in seconds. *)
Definition jwt_sign (p : Payload) (issued : Z) (expiresIn : option Z)
  : string :=
  jws_encode {| payload := p; iat := issued;
                exp := (fun d => issued + d) <$> expiresIn |}.

(** [jwt.verify(token, SECRET)]. *)
Definition jwt_verify (token : string) : M Claims :=
  now <- Date_now ;;
  let clockTimestamp := now / 1000 in
  match jws_decode token with
  | None => throw JsonWebTokenError
  | Some decoded =>
      match exp decoded with
      | Some e =>
          if e <=? clockTimestamp then throw TokenExpiredError
          else ret decoded
      | None => ret decoded
      end
  end.

Definition seven_days : Z := 7 * 24 * 60 * 60.

Definition signTrialToken (p : TrialPayload) : M string :=
  now <- Date_now ;;
  ret (jwt_sign (Trial p) (now / 1000) (Some seven_days)).

Definition verifyTrialToken (token : string) : M TrialPayload :=
  decoded <- jwt_verify token ;;
  if negb (String.eqb (type decoded) "trial")
  then throw (Err "Invalid trial token type")
  else
    match payload decoded with
    | Trial p =>
        ret {| startedAt := startedAt p; durationDays := durationDays p |}
    | License _ =>    (* not reached: the tag of this shape is ['license'] *)
        throw (Err "Invalid trial token type")
    end.

Definition signLicenseToken (p : LicensePayload) : M string :=
  now <- Date_now ;;
  expiresIn <- match expiresAt p with
               | Some e => now' <- Date_now ;; ret (Some ((e - now') / 1000))
               | None => ret None
               end ;;
  ret (jwt_sign (License p) (now / 1000) expiresIn).

Definition verifyLicenseToken (token : string) : M LicensePayload :=
  decoded <- jwt_verify token ;;
  if negb (String.eqb (type decoded) "license")
  then throw (Err "Invalid license token type")
  else
    match payload decoded with
    | Trial _ =>        (* not reached: the tag of this shape is ['trial'] *)
        throw (Err "Invalid license token type")
    | License p =>
        match expiresAt p with
        | Some expiry =>
            now <- Date_now ;;
            if expiry <? now then throw (Err "License has expired")
            else ret {| name := name p; email := email p; plan := plan p;
                        purchasedAt := purchasedAt p;
                        expiresAt := expiresAt p |}
        | None =>
            ret {| name := name p; email := email p; plan := plan p;
                   purchasedAt := purchasedAt p; expiresAt := expiresAt p |}
        end
    end.


(** ** store.js: the singleton [LicenseStore] held by the world *)

Definition licenses_set (key : string) (r : LicenseRecord) : M unit :=
  s <- get_store ;;
  put_store {| licenses := <[key := r]> (licenses s);
               paymentIntentIndex := paymentIntentIndex s;
               subscriptionIndex := subscriptionIndex s |}.

Definition paymentIntentIndex_set (id key : string) : M unit :=
  s <- get_store ;;
  put_store {| licenses := licenses s;
               paymentIntentIndex := <[id := key]> (paymentIntentIndex s);
               subscriptionIndex := subscriptionIndex s |}.

Definition subscriptionIndex_set (id key : string) : M unit :=
  s <- get_store ;;
  put_store {| licenses := licenses s;
               paymentIntentIndex := paymentIntentIndex s;
               subscriptionIndex := <[id := key]> (subscriptionIndex s) |}.

(** [if (v) index.set(v, key)] *)
Definition when_truthy (v : nullable string) (f : string -> M unit)
  : M unit :=
  match present v with
  | Some id => f id
  | None => ret tt
  end.

Definition storeLicense (key token : string) (lic : LicensePayload)
    (meta : Metadata) : M unit :=
  _ <- licenses_set key
         {| fullToken := token; license := lic; metadata := meta |} ;;
  _ <- when_truthy (paymentIntentId meta)
         (fun id => paymentIntentIndex_set id key) ;;
  when_truthy (subscriptionId meta) (fun id => subscriptionIndex_set id key).

Definition getLicenseByKey (key : string) : M (option LicenseRecord) :=
  s <- get_store ;;
  ret (licenses s !! key).

(** [key ? this.licenses.get(key) : null] *)
Definition through_index (s : LicenseStore) (key : option string)
  : option LicenseRecord :=
  match key with
  | Some k => if truthy_string k then licenses s !! k else None
  | None => None
  end.

Definition getLicenseByPaymentIntent (id : string)
  : M (option LicenseRecord) :=
  s <- get_store ;;
  ret (through_index s (paymentIntentIndex s !! id)).

Definition getLicenseBySubscription (id : string)
  : M (option LicenseRecord) :=
  s <- get_store ;;
  ret (through_index s (subscriptionIndex s !! id)).

(** [this.licenses.get(key)] for a [key] that need not be a string:
    only strings are ever used as keys of the map. *)
Definition licenses_get (s : LicenseStore) (key : nullable string)
  : option LicenseRecord :=
  match key with
  | Val k => licenses s !! k
  | _ => None
  end.

Definition updateLicense (key : nullable string) (token : string)
    (lic : LicensePayload) : M unit :=
  s <- get_store ;;
  match key, licenses_get s key with
  | Val k, Some existing =>
      licenses_set k {| fullToken := token; license := lic;
                        metadata := metadata existing |}
  | _, _ => ret tt
  end.

Definition year_ms : Z := 365 * 24 * 60 * 60 * 1000.

(** 2024-01-01T00:00:00.000Z *)
Definition dev_purchasedAt : Z := 1704067200000.

Definition dev_metadata : Metadata :=
  {| paymentIntentId := Undefined; subscriptionId := Undefined;
     isDevelopment := Val true |}.

Definition initializeDevelopmentLicenses : M unit :=
  now <- Date_now ;;
  let lifetime :=
    {| name := "Development User"; email := "dev@example.com";
       plan := "pro-lifetime"; purchasedAt := dev_purchasedAt;
       expiresAt := None |} in
  let annual :=
    {| name := "Development User"; email := "dev@example.com";
       plan := "pro-annual"; purchasedAt := dev_purchasedAt;
       expiresAt := Some (now + year_ms) |} in
  token <- signLicenseToken lifetime ;;
  _ <- licenses_set "PFW-DEV0-LIFE-TIME-TEST"
         {| fullToken := token; license := lifetime;
            metadata := dev_metadata |} ;;
  token' <- signLicenseToken annual ;;
  licenses_set "PFW-DEV0-ANNU-AL00-TEST"
    {| fullToken := token'; license := annual; metadata := dev_metadata |}.

(** [new LicenseStore()] *)
Definition LicenseStore_new : M unit :=
  _ <- put_store {| licenses := ∅; paymentIntentIndex := ∅;
                    subscriptionIndex := ∅ |} ;;
  initializeDevelopmentLicenses.

(** ** stripe.js *)

(** The three calls of the Stripe client the program awaits; [None]
    is a rejected promise. *)
Variable paymentIntents_retrieve : string -> option PaymentIntent.
Variable subscriptions_retrieve : string -> option Subscription.
Variable customers_retrieve : string -> option Customer.

Definition await {A} (r : option A) : M A :=
  match r with
  | Some a => ret a
  | None => throw (Err "stripe")
  end.

(** [a || b] on optional strings. *)
Definition or_else (a b : nullable string) : nullable string :=
  if truthy a then a else b.

Definition no_customerInfo : CustomerInfo :=
  {| info_name := Undefined; info_email := Undefined |}.

Definition verifyStripePayment (type id : string) : M Verification :=
  try_catch
    (if String.eqb type "payment_intent" then
       paymentIntent <- await (paymentIntents_retrieve id) ;;
       let paymentSucceeded :=
         String.eqb (pi_status paymentIntent) "succeeded" in
       match (if paymentSucceeded then present (pi_customer paymentIntent)
              else None) with
       | Some c =>
           customer <- await (customers_retrieve c) ;;
           ret {| success := paymentSucceeded;
                  customerInfo := Val
                    {| info_name := or_else (customer_name customer)
                                      (pi_metadata_name paymentIntent);
                       info_email := or_else (customer_email customer)
                                       (pi_metadata_email paymentIntent) |} |}
       | None => ret {| success := paymentSucceeded;
                        customerInfo := Val no_customerInfo |}
       end
     else if String.eqb type "subscription" then
       subscription <- await (subscriptions_retrieve id) ;;
       let paymentSucceeded :=
         String.eqb (sub_status subscription) "active"
         || String.eqb (sub_status subscription) "trialing" in
       match (if paymentSucceeded then present (sub_customer subscription)
              else None) with
       | Some c =>
           customer <- await (customers_retrieve c) ;;
           ret {| success := paymentSucceeded;
                  customerInfo := Val
                    {| info_name := or_else (customer_name customer)
                                      (sub_metadata_customerName subscription);
                       info_email := or_else (customer_email customer)
                                       (sub_metadata_customerEmail subscription) |} |}
       | None => ret {| success := paymentSucceeded;
                        customerInfo := Val no_customerInfo |}
       end
     else ret {| success := false; customerInfo := Val no_customerInfo |})
    (fun _ => ret {| success := false; customerInfo := Undefined |}).

(** ** server.js *)

Definition respond (code : Z) (b : Body) : M Response :=
  ret {| status := code; body := b |}.

(** *** Helpers *)

Definition chars : string := "ABCDEFGHIJKLMNOPQRSTUVWXYZ0123456789".

(** The inner loop, [j] characters still to draw. *)
Fixpoint draw_segment (j : nat) (seg : string) : M string :=
  match j with
  | O => ret seg
  | S j' =>
      r <- Math_random ;;
      draw_segment j'
        (seg +:+ charAt chars (floor_mul r (Z.of_nat (String.length chars))))
  end.

(** The outer loop, [i] segments still to push. *)
Fixpoint draw_segments (i : nat) (segments : list string)
  : M (list string) :=
  match i with
  | O => ret segments
  | S i' =>
      seg <- draw_segment 4 "" ;;
      draw_segments i' (segments ++ [seg])
  end.

Definition generateLicenseKey : M string :=
  segments <- draw_segments 5 [] ;;
  ret ("PFW-" +:+ join "-" segments).

Definition handlePaymentIntentSucceeded (paymentIntent : PaymentIntent)
  : M unit :=
  existing <- getLicenseByPaymentIntent (pi_id paymentIntent) ;;
  match existing with
  | Some _ => ret tt
  | None =>
      now <- Date_now ;;
      let lic :=
        {| name := or_default (pi_metadata_name paymentIntent) "Licensed User";
           email := or_default (pi_metadata_email paymentIntent) "";
           plan := "pro-lifetime";
           purchasedAt := now;
           expiresAt := None |} in
      token <- signLicenseToken lic ;;
      licenseKey <- generateLicenseKey ;;
      storeLicense licenseKey token lic
        {| paymentIntentId := Val (pi_id paymentIntent);
           subscriptionId := Undefined; isDevelopment := Undefined |}
  end.

Definition handleInvoicePaymentSucceeded (invoice : Invoice) : M unit :=
  match present (inv_subscription invoice) with
  | None => ret tt
  | Some id =>
      existing <- getLicenseBySubscription id ;;
      match existing with
      | Some _ => ret tt
      | None =>
          purchased <- Date_now ;;
          now <- Date_now ;;
          let lic :=
            {| name := or_default (inv_customer_name invoice) "Licensed User";
               email := or_default (inv_customer_email invoice) "";
               plan := "pro-annual";
               purchasedAt := purchased;
               expiresAt := Some (now + year_ms) |} in
          token <- signLicenseToken lic ;;
          licenseKey <- generateLicenseKey ;;
          storeLicense licenseKey token lic
            {| paymentIntentId := Undefined;
               subscriptionId := Val id; isDevelopment := Undefined |}
      end
  end.

(** [existing.key]: the objects held by the map are
    [{ fullToken, license, metadata }] and have no such property. *)
Definition record_key (existing : LicenseRecord) : nullable string :=
  Undefined.

Definition handleSubscriptionChanged (subscription : Subscription)
  : M unit :=
  existing <- getLicenseBySubscription (sub_id subscription) ;;
  match existing with
  | None => ret tt
  | Some existing =>
      if String.eqb (sub_status subscription) "active" then
        let updated :=
          {| name := name (license existing);
             email := email (license existing);
             plan := plan (license existing);
             purchasedAt := purchasedAt (license existing);
             expiresAt :=
               Some (sub_current_period_end subscription * 1000) |} in
        newToken <- signLicenseToken updated ;;
        updateLicense (record_key existing) newToken updated
      else ret tt
  end.

Definition handleSubscriptionDeleted (subscription : Subscription)
  : M unit :=
  existing <- getLicenseBySubscription (sub_id subscription) ;;
  match existing with
  | None => ret tt
  | Some existing =>
      now <- Date_now ;;
      let updated :=
        {| name := name (license existing);
           email := email (license existing);
           plan := plan (license existing);
           purchasedAt := purchasedAt (license existing);
           expiresAt := Some now |} in
      newToken <- signLicenseToken updated ;;
      updateLicense (record_key existing) newToken updated
  end.

(** *** POST /api/stripe/webhook, after [constructEvent] *)

Definition dispatch (event : Event) : M unit :=
  match event with
  | payment_intent_succeeded o => handlePaymentIntentSucceeded o
  | invoice_payment_succeeded o => handleInvoicePaymentSucceeded o
  | customer_subscription_created o => handleSubscriptionChanged o
  | customer_subscription_updated o => handleSubscriptionChanged o
  | customer_subscription_deleted o => handleSubscriptionDeleted o
  | unhandled _ => ret tt
  end.

Definition stripe_webhook (event : Event) : M Response :=
  try_catch
    (_ <- dispatch event ;; respond 200 received)
    (fun _ => respond 500 (failure "Webhook processing failed")).

(** *** POST /api/license/verify *)

Definition license_verify (licenseKey : nullable string) : M Response :=
  try_catch
    (match present licenseKey with
     | None => respond 400 (failure "License key required")
     | Some k =>
         lic <- try_catch (verifyLicenseToken k)
                  (fun _ =>
                     stored <- getLicenseByKey k ;;
                     match stored with
                     | None => throw (Err "License not found")
                     | Some r => verifyLicenseToken (fullToken r)
                     end) ;;
         token <- signLicenseToken lic ;;
         respond 200 (verified token lic)
     end)
    (fun _ => respond 400 (failure "Invalid license key")).

(** *** POST /api/license/redeem *)

Definition license_redeem (licenseKey : nullable string) : M Response :=
  try_catch
    (match present licenseKey with
     | None => respond 400 (failure "License key required")
     | Some k =>
         stored <- getLicenseByKey k ;;
         match stored with
         | None => respond 400 (failure "Invalid license key")
         | Some r =>
             _ <- verifyLicenseToken (fullToken r) ;;
             respond 200 (redeemed (fullToken r))
         end
     end)
    (fun _ => respond 400 (failure "Invalid license key")).

(** *** POST /api/payments/license *)

(** [v || null] *)
Definition or_null (v : nullable string) : nullable string :=
  if truthy v then v else Null.

(** [verification.customerInfo || {}] *)
Definition info_or_empty (v : nullable CustomerInfo) : CustomerInfo :=
  match v with
  | Val i => i
  | _ => no_customerInfo
  end.

(** [plan && ["annual", "lifetime"].includes(plan)] *)
Definition valid_plan (plan : nullable string) : bool :=
  match present plan with
  | Some p => String.eqb p "annual" || String.eqb p "lifetime"
  | None => false
  end.

Definition plan_is (plan : nullable string) (p : string) : bool :=
  match plan with
  | Val q => String.eqb q p
  | _ => false
  end.

(** The two branches that set [paymentVerified] and [customerInfo]. *)
Definition verify_payment (plan paymentIntentId subscriptionId : nullable string)
  : M (bool * CustomerInfo) :=
  match (if plan_is plan "lifetime" then present paymentIntentId else None) with
  | Some pid =>
      verification <- verifyStripePayment "payment_intent" pid ;;
      ret (success verification, info_or_empty (customerInfo verification))
  | None =>
      match (if plan_is plan "annual" then present subscriptionId else None) with
      | Some sid =>
          verification <- verifyStripePayment "subscription" sid ;;
          ret (success verification,
               info_or_empty (customerInfo verification))
      | None => ret (false, no_customerInfo)
      end
  end.

Definition payments_license (plan paymentIntentId subscriptionId : nullable string)
  : M Response :=
  try_catch
    (if negb (valid_plan plan) then respond 400 (failure "Invalid plan")
     else
       v <- verify_payment plan paymentIntentId subscriptionId ;;
       let '(paymentVerified, customerInfo) := v in
       if negb paymentVerified then
         respond 400 (failure "Payment not verified")
       else
         now <- Date_now ;;
         expires <- (if plan_is plan "annual"
                     then t <- Date_now ;; ret (Some (t + year_ms))
                     else ret None) ;;
         let lic :=
           {| name := or_default (info_name customerInfo) "Licensed User";
              email := or_default (info_email customerInfo) "";
              plan := if plan_is plan "annual" then "pro-annual"
                      else "pro-lifetime";
              purchasedAt := now;
              expiresAt := expires |} in
         token <- signLicenseToken lic ;;
         licenseKey <- generateLicenseKey ;;
         _ <- storeLicense licenseKey token lic
                {| paymentIntentId := or_null paymentIntentId;
                   subscriptionId := or_null subscriptionId;
                   isDevelopment := Undefined |} ;;
         respond 200 (issued token licenseKey lic))
    (fun _ => respond 500 (failure "Failed to create license")).

End Program.

(** ** A reference codec

    An executable pair of functions with the law assumed of
    [jsonwebtoken]: it shows the law can be met, and the examples below
    compute with it.  Numbers are written in binary, least significant
    bit first, and strings are prefixed by their length. *)

Module Codec.

Local Open Scope char_scope.

Fixpoint put_pos (p : positive) (rest : string) : string :=
  match p with
  | xH => String "." rest
  | xO q => String "0" (put_pos q rest)
  | xI q => String "1" (put_pos q rest)
  end.

Fixpoint get_pos (s : string) : option (positive * string) :=
  match s with
  | EmptyString => None
  | String c rest =>
      if Ascii.eqb c "." then Some (xH, rest)
      else if Ascii.eqb c "0" then
        match get_pos rest with
        | Some (q, r) => Some (xO q, r)
        | None => None
        end
      else if Ascii.eqb c "1" then
        match get_pos rest with
        | Some (q, r) => Some (xI q, r)
        | None => None
        end
      else None
  end.

Definition put_Z (z : Z) (rest : string) : string :=
  match z with
  | Z0 => String "z" rest
  | Zpos p => String "+" (put_pos p rest)
  | Zneg p => String "-" (put_pos p rest)
  end.

Definition get_Z (s : string) : option (Z * string) :=
  match s with
  | EmptyString => None
  | String c rest =>
      if Ascii.eqb c "z" then Some (Z0, rest)
      else if Ascii.eqb c "+" then
        match get_pos rest with
        | Some (p, r) => Some (Zpos p, r)
        | None => None
        end
      else if Ascii.eqb c "-" then
        match get_pos rest with
        | Some (p, r) => Some (Zneg p, r)
        | None => None
        end
      else None
  end.

Fixpoint take (n : nat) (s : string) : option (string * string) :=
  match n with
  | O => Some (EmptyString, s)
  | S n' =>
      match s with
      | EmptyString => None
      | String c rest =>
          match take n' rest with
          | Some (t, r) => Some (String c t, r)
          | None => None
          end
      end
  end.

Definition put_string (s rest : string) : string :=
  put_Z (Z.of_nat (String.length s)) (s +:+ rest).

Definition get_string (s : string) : option (string * string) :=
  match get_Z s with
  | Some (n, r) => take (Z.to_nat n) r
  | None => None
  end.

Definition put_option (o : option Z) (rest : string) : string :=
  match o with
  | None => String "n" rest
  | Some z => String "s" (put_Z z rest)
  end.

Definition get_option (s : string) : option (option Z * string) :=
  match s with
  | EmptyString => None
  | String c rest =>
      if Ascii.eqb c "n" then Some (None, rest)
      else if Ascii.eqb c "s" then
        match get_Z rest with
        | Some (z, r) => Some (Some z, r)
        | None => None
        end
      else None
  end.

Definition put_payload (p : Payload) (rest : string) : string :=
  match p with
  | Trial t =>
      String "T" (put_Z (startedAt t) (put_Z (durationDays t) rest))
  | License l =>
      String "L"
        (put_string (name l)
           (put_string (email l)
              (put_string (plan l)
                 (put_Z (purchasedAt l) (put_option (expiresAt l) rest)))))
  end.

Definition get_payload (s : string) : option (Payload * string) :=
  match s with
  | EmptyString => None
  | String c rest =>
      if Ascii.eqb c "T" then
        match get_Z rest with
        | Some (a, r1) =>
            match get_Z r1 with
            | Some (d, r2) =>
                Some (Trial {| startedAt := a; durationDays := d |}, r2)
            | None => None
            end
        | None => None
        end
      else if Ascii.eqb c "L" then
        match get_string rest with
        | Some (n, r1) =>
            match get_string r1 with
            | Some (e, r2) =>
                match get_string r2 with
                | Some (pl, r3) =>
                    match get_Z r3 with
                    | Some (pa, r4) =>
                        match get_option r4 with
                        | Some (ex, r5) =>
                            Some (License {| name := n; email := e;
                                             plan := pl; purchasedAt := pa;
                                             expiresAt := ex |}, r5)
                        | None => None
                        end
                    | None => None
                    end
                | None => None
                end
            | None => None
            end
        | None => None
        end
      else None
  end.

Definition encode (c : Claims) : string :=
  put_payload (payload c) (put_Z (iat c) (put_option (exp c) EmptyString)).

Definition decode (s : string) : option Claims :=
  match get_payload s with
  | Some (p, r1) =>
      match get_Z r1 with
      | Some (i, r2) =>
          match get_option r2 with
          | Some (e, EmptyString) =>
              Some {| payload := p; iat := i; exp := e |}
          | _ => None
          end
      | None => None
      end
  | None => None
  end.

End Codec.

(** ** The format of license keys *)

Definition is_key_char (c : ascii) : bool :=
  let n := nat_of_ascii c in
  ((65 <=? n) && (n <=? 90) || (48 <=? n) && (n <=? 57))%nat.

(** [(-[A-Z0-9]{4}){n}] up to the end of the string. *)
Fixpoint match_groups (n : nat) (s : string) : bool :=
  match n with
  | O => match s with EmptyString => true | _ => false end
  | S n' =>
      match s with
      | String d (String c1 (String c2 (String c3 (String c4 rest)))) =>
          Ascii.eqb d "-" && is_key_char c1 && is_key_char c2
          && is_key_char c3 && is_key_char c4 && match_groups n' rest
      | _ => false
      end
  end.

(** The whole of [key] matches [PFW(-[A-Z0-9]{4}){groups}]. *)
Definition matches_key_pattern (groups : nat) (key : string) : bool :=
  match key with
  | String p (String f (String w rest)) =>
      Ascii.eqb p "P" && Ascii.eqb f "F" && Ascii.eqb w "W"
      && match_groups groups rest
  | _ => false
  end.

(** [[A-Z0-9]{4}] *)
Definition key_group (s : string) : bool :=
  match s with
  | String c1 (String c2 (String c3 (String c4 EmptyString))) =>
      is_key_char c1 && is_key_char c2 && is_key_char c3 && is_key_char c4
  | _ => false
  end.

(** The [i]-th character of the alphabet is one of the pattern. *)
Definition key_char_at (i : nat) : bool :=
  match charAt chars (Z.of_nat i) with
  | String c EmptyString => is_key_char c
  | _ => false
  end.

(** The world after [n] more calls of [Math.random()]. *)
Definition advance_entropy (n : nat) (w : World) : World :=
  {| store := store w; clock := clock w; clock_reads := clock_reads w;
     entropy := entropy w; entropy_reads := n + entropy_reads w |}.

(** The world after [n] more readings of the clock. *)
Definition advance_clock (n : nat) (w : World) : World :=
  {| store := store w; clock := clock w; clock_reads := n + clock_reads w;
     entropy := entropy w; entropy_reads := entropy_reads w |}.

(** The world with another store. *)
Definition with_store (s : LicenseStore) (w : World) : World :=
  {| store := s; clock := clock w; clock_reads := clock_reads w;
     entropy := entropy w; entropy_reads := entropy_reads w |}.

(** [if (v) index.set(v, key)] as a function on the index. *)
Definition index_insert (v : nullable string) (key : string)
    (index : gmap string string) : gmap string string :=
  match present v with
  | Some id => <[id := key]> index
  | None => index
  end.

(** The store after [storeLicense(key, token, lic, meta)]. *)
Definition stored (key token : string) (lic : LicensePayload)
    (meta : Metadata) (s : LicenseStore) : LicenseStore :=
  {| licenses :=
       <[key := {| fullToken := token; license := lic; metadata := meta |}]>
         (licenses s);
     paymentIntentIndex :=
       index_insert (paymentIntentId meta) key (paymentIntentIndex s);
     subscriptionIndex :=
       index_insert (subscriptionId meta) key (subscriptionIndex s) |}.


(** ** What the processor confirms *)

Section Confirmation.

Variable paymentIntents_retrieve : string -> option PaymentIntent.
Variable subscriptions_retrieve : string -> option Subscription.
Variable customers_retrieve : string -> option Customer.

(** The customer of the payment, when there is one, can be retrieved. *)
Definition customer_known (c : nullable string) : Prop :=
  forall id, present c = Some id -> customers_retrieve id <> None.

(** The payment intent [id] is retrieved and has succeeded. *)
Definition charge_confirmed (id : string) : Prop :=
  exists o, paymentIntents_retrieve id = Some o
            /\ pi_status o = "succeeded"
            /\ customer_known (pi_customer o).

(** The subscription [id] is retrieved and is active or trialing. *)
Definition subscription_confirmed (id : string) : Prop :=
  exists o, subscriptions_retrieve id = Some o
            /\ (sub_status o = "active" \/ sub_status o = "trialing")
            /\ customer_known (sub_customer o).

(** The request names a payment of its plan that the processor
    confirms: a payment intent for [lifetime], a subscription for
    [annual]. *)
Definition payment_confirmed
    (plan paymentIntentId subscriptionId : nullable string) : Prop :=
  (plan = Val "lifetime"
   /\ exists id, present paymentIntentId = Some id /\ charge_confirmed id)
  \/ (plan = Val "annual"
      /\ exists id, present subscriptionId = Some id
                    /\ subscription_confirmed id).

End Confirmation.

(** A computation that leaves the license store as it found it. *)
Definition keeps_store {A} (m : M A) : Prop :=
  forall w, store (exec m w) = store w.

(** The law assumed of [jsonwebtoken]: verifying under the secret what
    was signed under it yields the signed claims. *)
Definition codec_law (jws_encode : Claims -> string)
    (jws_decode : string -> option Claims) : Prop :=
  forall c, jws_decode (jws_encode c) = Some c.

(** ** Worlds for the examples *)

Definition empty_store : LicenseStore :=
  {| licenses := ∅; paymentIntentIndex := ∅; subscriptionIndex := ∅ |}.

(** [Math.random()] returning 0. *)
Definition zero_draw : unit_real :=
  {| numer := 0; denom := 1; in_unit := conj (Z.le_refl 0) Z.lt_0_1 |}.

(** A world with the store [s] in which the clock stands at [t] ms. *)
Definition world_at (s : LicenseStore) (t : Z) : World :=
  {| store := s; clock := fun _ => t; clock_reads := 0;
     entropy := fun _ => zero_draw; entropy_reads := 0 |}.

Definition example_lifetime : LicensePayload :=
  {| name := "Ada"; email := "ada@example.com"; plan := "pro-lifetime";
     purchasedAt := 1700000000000; expiresAt := None |}.

Definition example_trial : TrialPayload :=
  {| startedAt := 0; durationDays := 3 |}.

Definition day_ms : Z := 24 * 60 * 60 * 1000.

Definition example_intent : PaymentIntent :=
  {| pi_id := "pi_123"; pi_status := "succeeded"; pi_customer := Null;
     pi_metadata_name := Val "Ada"; pi_metadata_email := Undefined |}.

(** An annual license bought at [example_bought], valid for a year, as
    the invoice handler stores it for subscription [sub_1]. *)
Definition example_bought : Z := 1700000000000.

Definition example_annual : LicensePayload :=
  {| name := "Ada"; email := "ada@example.com"; plan := "pro-annual";
     purchasedAt := example_bought;
     expiresAt := Some (example_bought + year_ms) |}.

Definition example_annual_token : string :=
  Codec.encode {| payload := License example_annual;
                  iat := example_bought / 1000;
                  exp := Some (example_bought / 1000 + year_ms / 1000) |}.

Definition example_annual_key : string := "PFW-AAAA-BBBB-CCCC-DDDD-EEEE".

Definition example_annual_store : LicenseStore :=
  stored example_annual_key example_annual_token example_annual
    {| paymentIntentId := Undefined; subscriptionId := Val "sub_1";
       isDevelopment := Undefined |}
    empty_store.

(** The subscription [sub_1] as the processor reports it, with a status
    and the end of the current period in seconds. *)
Definition example_subscription (status : string) (period_end : Z)
  : Subscription :=
  {| sub_id := "sub_1"; sub_status := status; sub_customer := Val "cus_1";
     sub_current_period_end := period_end;
     sub_metadata_customerName := Undefined;
     sub_metadata_customerEmail := Undefined |}.

(** A processor that knows one payment intent, [pi_123], still waiting
    for its payment method, and nothing else. *)
Definition pending_intent : PaymentIntent :=
  {| pi_id := "pi_123"; pi_status := "requires_payment_method";
     pi_customer := Val "cus_1";
     pi_metadata_name := Val "Ada"; pi_metadata_email := Undefined |}.

Definition pending_paymentIntents (id : string) : option PaymentIntent :=
  if String.eqb id "pi_123" then Some pending_intent else None.

Definition no_subscriptions (id : string) : option Subscription := None.

Definition no_customers (id : string) : option Customer := None.

(** The first development license of [initializeDevelopmentLicenses]. *)
Definition dev_lifetime : LicensePayload :=
  {| name := "Development User"; email := "dev@example.com";
     plan := "pro-lifetime"; purchasedAt := dev_purchasedAt;
     expiresAt := None |}.

(** * Further code *)

(** ** server.js: the rate limiter *)

(** A value of the [hits] map of a limiter: [{ count, resetAt }]. *)
Record Hit : Type := {
  count : Z;
  resetAt : Z
}.

(** The middleware [makeLimiter({ windowMs, max, message })] returns,
    run for a request whose key is [ip] (the first forwarded address, or
    [req.ip]) when [Date.now()] reads [now]: [None] is [next()], and the
    map is the [hits] the call leaves. *)
Definition limiter (windowMs max : Z) (message : string)
    (ip : string) (now : Z) (hits : gmap string Hit)
  : option Response * gmap string Hit :=
  match hits !! ip with
  | None =>
      (None, <[ip := {| count := 1; resetAt := now + windowMs |}]> hits)
  | Some entry =>
      if resetAt entry <? now then
        (None, <[ip := {| count := 1; resetAt := now + windowMs |}]> hits)
      else if max <=? count entry then
        (Some {| status := 429; body := failure message |}, hits)
      else
        (None,
         <[ip := {| count := count entry + 1; resetAt := resetAt entry |}]>
           hits)
  end.

(** The limiter over the requests [(ip, now)] in the order they arrive. *)
Fixpoint limiter_run (windowMs max : Z) (message : string)
    (requests : list (string * Z)) (hits : gmap string Hit)
  : list (option Response) * gmap string Hit :=
  match requests with
  | [] => ([], hits)
  | (ip, now) :: rest =>
      let '(answer, hits') := limiter windowMs max message ip now hits in
      let '(answers, hits'') := limiter_run windowMs max message rest hits' in
      (answer :: answers, hits'')
  end.

(** How many of the requests of [ip] are let through. *)
Fixpoint admitted (windowMs max : Z) (message : string) (ip : string)
    (requests : list (string * Z)) (hits : gmap string Hit) : nat :=
  match requests with
  | [] => O
  | (ip', now) :: rest =>
      let '(answer, hits') := limiter windowMs max message ip' now hits in
      ((if String.eqb ip' ip
        then match answer with None => 1 | Some _ => 0 end
        else 0)
       + admitted windowMs max message ip rest hits')%nat
  end.

(** How many of the requests come from [ip]. *)
Fixpoint requests_of (ip : string) (requests : list (string * Z)) : nat :=
  match requests with
  | [] => O
  | (ip', _) :: rest =>
      ((if String.eqb ip' ip then 1 else 0) + requests_of ip rest)%nat
  end.

(** The requests that come from [ip], in their order. *)
Fixpoint requests_from (ip : string) (requests : list (string * Z))
  : list (string * Z) :=
  match requests with
  | [] => []
  | (ip', now) :: rest =>
      if String.eqb ip' ip then (ip', now) :: requests_from ip rest
      else requests_from ip rest
  end.

(** [licenseLimiter] and [paymentLimiter]. *)
Definition licenseLimiter
  : string -> Z -> gmap string Hit -> option Response * gmap string Hit :=
  limiter (15 * 60 * 1000) 10
    "Too many license requests, please try again later.".

Definition paymentLimiter
  : string -> Z -> gmap string Hit -> option Response * gmap string Hit :=
  limiter (15 * 60 * 1000) 5
    "Too many payment requests, please try again later.".

(** ** store.js: what the indexes promise *)

(** Every entry of the two indexes names a key of the [licenses] map. *)
Definition indexes_resolve (s : LicenseStore) : Prop :=
  (forall id k, paymentIntentIndex s !! id = Some k ->
                is_Some (licenses s !! k))
  /\ (forall id k, subscriptionIndex s !! id = Some k ->
                   is_Some (licenses s !! k)).

(** ** A processor for the examples *)

(** A processor that knows the payment intent [pi_123], succeeded and
    without a customer, and nothing else. *)
Definition paid_paymentIntents (id : string) : option PaymentIntent :=
  if String.eqb id "pi_123" then Some example_intent else None.

(** A computation that leaves the store as it was or stores one license
    in it, under a key of the generated format. *)
Definition stores_at_most_one {A} (m : M A) : Prop :=
  forall w,
    store (exec m w) = store w
    \/ exists key token lic meta,
        store (exec m w) = stored key token lic meta (store w)
        /\ matches_key_pattern 5 key = true.

(** ** server.js: the trial endpoints *)

      (* [{ ok: true, trialToken, startedAt, expiresAt, now, secondsLeft,
            expired }] *)


Section Trial.

Variable jws_encode : Claims -> string.
Variable jws_decode : string -> option Claims.



End Trial.

(** ** server.js: the requests that reach the store *)

Inductive Request : Type :=
| post_stripe_webhook (event : Event)
| post_license_verify (licenseKey : nullable string)
| post_license_redeem (licenseKey : nullable string)
| post_payments_license (plan paymentIntentId subscriptionId : nullable string).

Section Serving.

Variable jws_encode : Claims -> string.
Variable jws_decode : string -> option Claims.
Variable paymentIntents_retrieve : string -> option PaymentIntent.
Variable subscriptions_retrieve : string -> option Subscription.
Variable customers_retrieve : string -> option Customer.

(** The handler of each route, behind its limiter. *)
Definition serve (r : Request) : M Response :=
  match r with
  | post_stripe_webhook event => stripe_webhook jws_encode event
  | post_license_verify licenseKey =>
      license_verify jws_encode jws_decode licenseKey
  | post_license_redeem licenseKey => license_redeem jws_decode licenseKey
  | post_payments_license plan paymentIntentId subscriptionId =>
      payments_license jws_encode paymentIntents_retrieve
        subscriptions_retrieve customers_retrieve
        plan paymentIntentId subscriptionId
  end.

(** The requests one after the other, from the world [w]. *)
Fixpoint serve_all (rs : list Request) (w : World) : World :=
  match rs with
  | [] => w
  | r :: rest => serve_all rest (exec (serve r) w)
  end.

End Serving.

(** ** stripe.js: creating a payment *)

(** [req.body.billingAddress] *)
Record BillingAddress : Type := {
  line1 : nullable string;
  line2 : nullable string;
  city : nullable string;
  state : nullable string;
  postalCode : nullable string;
  country : nullable string
}.

(** The [address] given to [customers.create]. *)
Record AddressParams : Type := {
  address_line1 : nullable string;
  address_line2 : nullable string;
  address_city : nullable string;
  address_state : nullable string;
  address_postal_code : nullable string;
  address_country : string
}.

(** The argument of [customers.create]: [{ name, email, phone, address }]. *)
Record CustomerParams : Type := {
  new_name : nullable string;
  new_email : nullable string;
  new_phone : nullable string;
  new_address : nullable AddressParams
}.

(** The argument of [subscriptions.create], without its constant parts
    ([payment_behavior], [expand], the plan ['annual']). *)
Record SubscriptionParams : Type := {
  for_customer : string;
  price : nullable string;            (* [STRIPE_PRICE_ID_YEARLY] *)
  meta_customerName : nullable string;
  meta_customerEmail : nullable string
}.

(** The argument of [paymentIntents.create], without its constant parts
    (the plan ['lifetime'], the description). *)
Record IntentParams : Type := {
  amount : Z;
  currency : string;
  intent_customer : string;
  receipt_email : nullable string;
  meta_name : nullable string;
  meta_email : nullable string
}.

(** A created subscription: its id and what
    [latest_invoice.payment_intent.client_secret] evaluates to, [None]
    when the invoice or its payment intent is missing and the property
    access throws. *)
Record CreatedSubscription : Type := {
  created_sub_id : string;
  latest_client_secret : option (nullable string)
}.

Record CreatedIntent : Type := {
  created_intent_id : string;
  intent_client_secret : nullable string
}.

(** A promise that has settled: resolved with a value or rejected with an
    error carrying a message. *)
Inductive Settled (A : Type) : Type :=
| resolved (a : A)
| rejected (message : string).
Arguments resolved {A} a.
Arguments rejected {A} message.

(** What the two functions resolve to. *)
Inductive Creation : Type :=
| subscription_created (subscriptionId : string)
    (clientSecret : nullable string) (customerId : string)
          (* [{ ok: true, subscriptionId, clientSecret, customerId }] *)
| intent_created (paymentIntentId : string)
    (clientSecret : nullable string) (customerId : string)
          (* [{ ok: true, paymentIntentId, clientSecret, customerId }] *)
| creation_failed (error : string).          (* [{ ok: false, error }] *)

(** [billingAddress ? { line1, line2: line2 || null, ...,
    country: country || 'US' } : null] *)
Definition address_params (billingAddress : nullable BillingAddress)
  : nullable AddressParams :=
  match billingAddress with
  | Val b =>
      Val {| address_line1 := line1 b;
             address_line2 := or_null (line2 b);
             address_city := city b;
             address_state := state b;
             address_postal_code := postalCode b;
             address_country := or_default (country b) "US" |}
  | _ => Null
  end.

Section Creating.

(** The calls of the Stripe client, the configuration read from the
    environment, and the message of the TypeError a property access on
    [null] throws. *)
Variable customers_list : nullable string -> Settled (list string).
Variable customers_create : CustomerParams -> Settled string.
Variable subscriptions_create : SubscriptionParams -> Settled CreatedSubscription.
Variable paymentIntents_create : IntentParams -> Settled CreatedIntent.
Variable STRIPE_PRICE_ID_YEARLY : nullable string.
Variable CURRENCY : nullable string.
Variable type_error : string.

(** "Create or get customer": the id of the first customer listed for
    the email, or of a new one. *)
Definition create_or_get_customer (name email phone : nullable string)
    (billingAddress : nullable BillingAddress) : Settled string :=
  match customers_list email with
  | rejected message => rejected message
  | resolved (existing :: _) => resolved existing
  | resolved [] =>
      customers_create
        {| new_name := name; new_email := email; new_phone := phone;
           new_address := address_params billingAddress |}
  end.

Definition createStripeSubscription (name email phone : nullable string)
    (billingAddress : nullable BillingAddress) : Creation :=
  match create_or_get_customer name email phone billingAddress with
  | rejected message => creation_failed message
  | resolved customer =>
      match subscriptions_create
              {| for_customer := customer; price := STRIPE_PRICE_ID_YEARLY;
                 meta_customerName := name; meta_customerEmail := email |}
      with
      | rejected message => creation_failed message
      | resolved subscription =>
          match latest_client_secret subscription with
          | None => creation_failed type_error
          | Some secret =>
              subscription_created (created_sub_id subscription) secret
                customer
          end
      end
  end.

Definition createStripePaymentIntent (cents : Z)
    (name email phone : nullable string)
    (billingAddress : nullable BillingAddress) : Creation :=
  match create_or_get_customer name email phone billingAddress with
  | rejected message => creation_failed message
  | resolved customer =>
      match paymentIntents_create
              {| amount := cents; currency := or_default CURRENCY "USD";
                 intent_customer := customer; receipt_email := email;
                 meta_name := name; meta_email := email |}
      with
      | rejected message => creation_failed message
      | resolved paymentIntent =>
          intent_created (created_intent_id paymentIntent)
            (intent_client_secret paymentIntent) customer
      end
  end.

(** The answer of POST /api/payments/create: a status and either an
    error of the handler or what the creation resolved to. *)
Inductive CreateBody : Type :=
| create_error (error : string)                (* [{ ok: false, error }] *)
| create_result (result : Creation).              (* [res.json(result)] *)

(** POST /api/payments/create, with [lifetimeAmount] the integer that
    [parseInt(process.env.LIFETIME_AMOUNT || "9999", 10)] yields. *)
Definition payments_create (lifetimeAmount : Z)
    (plan name email phone : nullable string)
    (billingAddress : nullable BillingAddress) : Z * CreateBody :=
  match present plan, present name, present email with
  | Some p, Some _, Some _ =>
      if negb (String.eqb p "annual" || String.eqb p "lifetime") then
        (400, create_error "Invalid plan")
      else if String.eqb p "annual" then
        (200, create_result
                (createStripeSubscription name email phone billingAddress))
      else
        (200, create_result
                (createStripePaymentIntent lifetimeAmount name email phone
                   billingAddress))
  | _, _, _ => (400, create_error "Missing required fields")
  end.

End Creating.

(** * Facts *)

Module CodecFacts.
Import Codec.

Lemma get_put_pos p rest : get_pos (put_pos p rest) = Some (p, rest).
Proof. induction p as [q IH | q IH |]; simpl; rewrite ?IH; reflexivity. Qed.

Lemma get_put_Z z rest : get_Z (put_Z z rest) = Some (z, rest).
Proof. destruct z; simpl; rewrite ?get_put_pos; reflexivity. Qed.

Lemma take_app s rest : take (String.length s) (s +:+ rest) = Some (s, rest).
Proof. induction s as [| c s IH]; simpl; rewrite ?IH; reflexivity. Qed.

Lemma get_put_string s rest :
  get_string (put_string s rest) = Some (s, rest).
Proof.
  unfold get_string, put_string.
  rewrite get_put_Z, Nat2Z.id. apply take_app.
Qed.

Lemma get_put_option o rest :
  get_option (put_option o rest) = Some (o, rest).
Proof. destruct o; simpl; rewrite ?get_put_Z; reflexivity. Qed.

Lemma get_put_payload p rest :
  get_payload (put_payload p rest) = Some (p, rest).
Proof.
  destruct p as [[a d] | [n e pl pa ex]]; simpl.
  - rewrite !get_put_Z. reflexivity.
  - rewrite !get_put_string, get_put_Z, get_put_option. reflexivity.
Qed.

Lemma decode_encode c : decode (encode c) = Some c.
Proof.
  destruct c as [p i e]. unfold decode, encode. simpl.
  rewrite get_put_payload, get_put_Z, get_put_option. reflexivity.
Qed.

End CodecFacts.

(** ** Key generation *)

Lemma floor_mul_range (r : unit_real) (n : Z) :
  0 < n -> 0 <= floor_mul r n < n.
Proof.
  intros Hn. unfold floor_mul. destruct r as [a d [Ha Hd]]. simpl.
  split.
  - apply Z.div_pos; nia.
  - apply Z.div_lt_upper_bound; nia.
Qed.

Lemma chars_are_key_chars : forallb key_char_at (seq 0 36) = true.
Proof. vm_compute. reflexivity. Qed.

Lemma charAt_chars (r : unit_real) :
  exists c, charAt chars (floor_mul r (Z.of_nat (String.length chars)))
            = String c EmptyString
            /\ is_key_char c = true.
Proof.
  pose proof (floor_mul_range r (Z.of_nat (String.length chars))) as Hr.
  set (i := floor_mul r _) in *.
  assert (Hi : 0 <= i < 36) by (apply Hr; reflexivity).
  pose proof chars_are_key_chars as Hall.
  rewrite forallb_forall in Hall.
  specialize (Hall (Z.to_nat i)).
  unfold key_char_at in Hall. rewrite Z2Nat.id in Hall by lia.
  destruct (charAt chars i) as [| c [| ? ?]] eqn:E.
  - discriminate Hall. apply in_seq. lia.
  - exists c. split; [reflexivity |]. apply Hall. apply in_seq. lia.
  - discriminate Hall. apply in_seq. lia.
Qed.

Lemma advance_entropy_0 w : advance_entropy 0 w = w.
Proof. destruct w; reflexivity. Qed.

Lemma advance_entropy_add n m w :
  advance_entropy n (advance_entropy m w) = advance_entropy (n + m) w.
Proof. unfold advance_entropy. simpl. f_equal. lia. Qed.

Lemma draw_segment_step j seg w :
  draw_segment (S j) seg w
  = draw_segment j
      (seg +:+ charAt chars
                 (floor_mul (entropy w (entropy_reads w))
                    (Z.of_nat (String.length chars))))
      (advance_entropy 1 w).
Proof. reflexivity. Qed.

(** A segment is four characters of the alphabet, and costs four draws. *)
Lemma draw_segment_4 w :
  exists c1 c2 c3 c4,
    draw_segment 4 "" w
    = (Ok (String c1 (String c2 (String c3 (String c4 "")))),
       advance_entropy 4 w)
    /\ is_key_char c1 = true /\ is_key_char c2 = true
    /\ is_key_char c3 = true /\ is_key_char c4 = true.
Proof.
  rewrite draw_segment_step.
  destruct (charAt_chars (entropy w (entropy_reads w))) as [c1 [E1 K1]].
  rewrite E1.
  rewrite draw_segment_step.
  destruct (charAt_chars (entropy (advance_entropy 1 w)
                            (entropy_reads (advance_entropy 1 w))))
    as [c2 [E2 K2]].
  rewrite E2.
  rewrite draw_segment_step.
  destruct (charAt_chars
              (entropy (advance_entropy 1 (advance_entropy 1 w))
                 (entropy_reads (advance_entropy 1 (advance_entropy 1 w)))))
    as [c3 [E3 K3]].
  rewrite E3.
  rewrite draw_segment_step.
  destruct (charAt_chars
              (entropy (advance_entropy 1 (advance_entropy 1 (advance_entropy 1 w)))
                 (entropy_reads
                    (advance_entropy 1 (advance_entropy 1 (advance_entropy 1 w))))))
    as [c4 [E4 K4]].
  rewrite E4.
  exists c1, c2, c3, c4.
  rewrite !advance_entropy_add. simpl.
  repeat split; assumption.
Qed.

Lemma draw_segment_group w :
  exists seg,
    draw_segment 4 "" w = (Ok seg, advance_entropy 4 w)
    /\ key_group seg = true.
Proof.
  destruct (draw_segment_4 w) as (c1 & c2 & c3 & c4 & E & K1 & K2 & K3 & K4).
  eexists. split; [exact E |].
  simpl. rewrite K1, K2, K3, K4. reflexivity.
Qed.

Lemma draw_segments_step i segments w :
  exists seg,
    draw_segments (S i) segments w
    = draw_segments i (segments ++ [seg]) (advance_entropy 4 w)
    /\ key_group seg = true.
Proof.
  destruct (draw_segment_group w) as (seg & E & K).
  exists seg. split; [| exact K].
  change (draw_segments (S i) segments w)
    with (bind (draw_segment 4 "")
            (fun seg => draw_segments i (segments ++ [seg])) w).
  unfold bind. rewrite E. reflexivity.
Qed.

Lemma key_pattern_of_groups s1 s2 s3 s4 s5 :
  key_group s1 = true -> key_group s2 = true -> key_group s3 = true ->
  key_group s4 = true -> key_group s5 = true ->
  matches_key_pattern 5 ("PFW-" +:+ join "-" [s1; s2; s3; s4; s5]) = true
  /\ matches_key_pattern 4 ("PFW-" +:+ join "-" [s1; s2; s3; s4; s5]) = false.
Proof.
  unfold key_group.
  destruct s1 as [| a1 [| a2 [| a3 [| a4 [| ? ?]]]]]; try discriminate.
  destruct s2 as [| b1 [| b2 [| b3 [| b4 [| ? ?]]]]]; try discriminate.
  destruct s3 as [| d1 [| d2 [| d3 [| d4 [| ? ?]]]]]; try discriminate.
  destruct s4 as [| e1 [| e2 [| e3 [| e4 [| ? ?]]]]]; try discriminate.
  destruct s5 as [| f1 [| f2 [| f3 [| f4 [| ? ?]]]]]; try discriminate.
  intros H1 H2 H3 H4 H5. simpl.
  rewrite H1, H2, H3, H4, H5. simpl.
  split; reflexivity.
Qed.

(** The key generator returns, costs twenty draws and nothing else, and
    its key has the prefix and five groups. *)
Lemma generateLicenseKey_spec w :
  exists s1 s2 s3 s4 s5,
    generateLicenseKey w
    = (Ok ("PFW-" +:+ join "-" [s1; s2; s3; s4; s5]), advance_entropy 20 w)
    /\ key_group s1 = true /\ key_group s2 = true /\ key_group s3 = true
    /\ key_group s4 = true /\ key_group s5 = true.
Proof.
  unfold generateLicenseKey, bind.
  destruct (draw_segments_step 4 [] w) as (s1 & E1 & K1). rewrite E1.
  destruct (draw_segments_step 3 ([] ++ [s1]) (advance_entropy 4 w))
    as (s2 & E2 & K2). rewrite E2.
  destruct (draw_segments_step 2 (([] ++ [s1]) ++ [s2])
              (advance_entropy 4 (advance_entropy 4 w)))
    as (s3 & E3 & K3). rewrite E3.
  destruct (draw_segments_step 1 ((([] ++ [s1]) ++ [s2]) ++ [s3])
              (advance_entropy 4 (advance_entropy 4 (advance_entropy 4 w))))
    as (s4 & E4 & K4). rewrite E4.
  destruct (draw_segments_step 0 (((([] ++ [s1]) ++ [s2]) ++ [s3]) ++ [s4])
              (advance_entropy 4
                 (advance_entropy 4 (advance_entropy 4 (advance_entropy 4 w)))))
    as (s5 & E5 & K5). rewrite E5.
  exists s1, s2, s3, s4, s5.
  rewrite !advance_entropy_add. simpl.
  repeat split; assumption.
Qed.

(** C8 (amended).  Every key the generator produces is the prefix [PFW]
    followed by five groups of a dash and exactly four characters of
    A-Z, 0-9: as a whole string it matches
    [PFW-[A-Z0-9]{4}-[A-Z0-9]{4}-[A-Z0-9]{4}-[A-Z0-9]{4}-[A-Z0-9]{4}],
    and never the pattern with four groups.  The generator always returns,
    after twenty draws. *)
Theorem generated_key_has_five_groups (w : World) :
  exists key,
    generateLicenseKey w = (Ok key, advance_entropy 20 w)
    /\ matches_key_pattern 5 key = true
    /\ matches_key_pattern 4 key = false.
Proof.
  destruct (generateLicenseKey_spec w)
    as (s1 & s2 & s3 & s4 & s5 & E & K1 & K2 & K3 & K4 & K5).
  eexists. split; [exact E |].
  apply key_pattern_of_groups; assumption.
Qed.

(** C8 as stated fails: with every draw 0 the generator returns a key of
    five groups, which the four-group pattern does not match. *)
Lemma generated_key_not_four_groups :
  eval generateLicenseKey (world_at empty_store 0)
  = Ok "PFW-AAAA-AAAA-AAAA-AAAA-AAAA"
  /\ matches_key_pattern 4 "PFW-AAAA-AAAA-AAAA-AAAA-AAAA" = false.
Proof. split; vm_compute; reflexivity. Qed.

(** ** Computations that keep the store *)

Lemma keeps_store_ret {A} (a : A) : keeps_store (ret a).
Proof. intros w. reflexivity. Qed.

Lemma keeps_store_throw {A} e : keeps_store (@throw A e).
Proof. intros w. reflexivity. Qed.

Lemma keeps_store_bind {A B} (m : M A) (k : A -> M B) :
  keeps_store m -> (forall a, keeps_store (k a)) -> keeps_store (bind m k).
Proof.
  intros Hm Hk w. unfold exec, bind.
  specialize (Hm w). unfold exec in Hm.
  destruct (m w) as [[a | e] w1]; simpl in *.
  - rewrite <- Hm. apply (Hk a w1).
  - exact Hm.
Qed.

Lemma keeps_store_try_catch {A} (m : M A) (h : Error -> M A) :
  keeps_store m -> (forall e, keeps_store (h e)) ->
  keeps_store (try_catch m h).
Proof.
  intros Hm Hh w. unfold exec, try_catch.
  specialize (Hm w). unfold exec in Hm.
  destruct (m w) as [[a | e] w1]; simpl in *.
  - exact Hm.
  - rewrite <- Hm. apply (Hh e w1).
Qed.

Lemma keeps_store_Date_now : keeps_store Date_now.
Proof. intros w. reflexivity. Qed.

Lemma keeps_store_Math_random : keeps_store Math_random.
Proof. intros w. reflexivity. Qed.

Lemma keeps_store_get_store : keeps_store get_store.
Proof. intros w. reflexivity. Qed.

Lemma keeps_store_respond code b : keeps_store (respond code b).
Proof. intros w. reflexivity. Qed.

Create HintDb keeps_store.
#[export] Hint Resolve keeps_store_ret keeps_store_throw keeps_store_Date_now
  keeps_store_Math_random keeps_store_get_store keeps_store_respond
  : keeps_store.

(** Splits a computation along its binds, handlers and case
    distinctions. *)
Ltac keeps_store_step :=
  match goal with
  | |- keeps_store (bind _ _) => apply keeps_store_bind; [| intros ?]
  | |- keeps_store (try_catch _ _) =>
      apply keeps_store_try_catch; [| intros ?]
  | |- keeps_store (match ?x with _ => _ end) => destruct x
  | |- keeps_store (if ?x then _ else _) => destruct x
  | |- keeps_store _ => solve [auto with keeps_store]
  end.

Section TokenFacts.

Variable jws_encode : Claims -> string.
Variable jws_decode : string -> option Claims.

Lemma keeps_store_jwt_verify token :
  keeps_store (jwt_verify jws_decode token).
Proof. unfold jwt_verify. repeat keeps_store_step. Qed.

Lemma keeps_store_verifyLicenseToken token :
  keeps_store (verifyLicenseToken jws_decode token).
Proof.
  unfold verifyLicenseToken.
  apply keeps_store_bind; [apply keeps_store_jwt_verify | intros c].
  repeat keeps_store_step.
Qed.

Lemma keeps_store_signLicenseToken p :
  keeps_store (signLicenseToken jws_encode p).
Proof. unfold signLicenseToken. repeat keeps_store_step. Qed.

Lemma keeps_store_getLicenseByKey key : keeps_store (getLicenseByKey key).
Proof. unfold getLicenseByKey. repeat keeps_store_step. Qed.

(** Signing a license always returns, and what it returns is the
    encoding of claims that carry the payload. *)
Lemma signLicenseToken_lifetime p w :
  expiresAt p = None ->
  signLicenseToken jws_encode p w
  = (Ok (jwt_sign jws_encode (License p)
           (clock w (clock_reads w) / 1000) None),
     advance_clock 1 w).
Proof.
  intros H. unfold signLicenseToken, bind, Date_now, ret. rewrite H.
  reflexivity.
Qed.

Lemma signLicenseToken_dated p e w :
  expiresAt p = Some e ->
  signLicenseToken jws_encode p w
  = (Ok (jwt_sign jws_encode (License p)
           (clock w (clock_reads w) / 1000)
           (Some ((e - clock w (S (clock_reads w))) / 1000))),
     advance_clock 2 w).
Proof.
  intros H. unfold signLicenseToken, bind, Date_now, ret. rewrite H.
  reflexivity.
Qed.


End TokenFacts.

(** ** Trial tokens *)

Section TrialFacts.

Variable jws_encode : Claims -> string.
Variable jws_decode : string -> option Claims.
Hypothesis codec : codec_law jws_encode jws_decode.

Lemma signTrialToken_returns p w :
  signTrialToken jws_encode p w
  = (Ok (jwt_sign jws_encode (Trial p)
           (clock w (clock_reads w) / 1000) (Some seven_days)),
     advance_clock 1 w).
Proof. reflexivity. Qed.

Lemma verifyTrialToken_signed p issued w :
  verifyTrialToken jws_decode
    (jwt_sign jws_encode (Trial p) issued (Some seven_days)) w
  = (if issued + seven_days <=? clock w (clock_reads w) / 1000
     then Throw TokenExpiredError else Ok p,
     advance_clock 1 w).
Proof.
  unfold verifyTrialToken, jwt_verify, jwt_sign, bind, Date_now.
  rewrite codec. simpl.
  destruct (issued + seven_days <=? clock w (clock_reads w) / 1000).
  - reflexivity.
  - destruct p. reflexivity.
Qed.

End TrialFacts.

(** C4 (amended).  For every pair (startedAt, durationDays), signing
    returns a token, and verifying it returns exactly that pair as long as
    the check happens, in whole seconds, before the signing time plus
    seven days; from the signing time plus seven days on it fails with
    TokenExpiredError, whatever durationDays is.  The window runs from the
    signing time, not from startedAt; when the token was signed no later
    than startedAt, every check after startedAt plus seven days fails. *)
Theorem trial_token_roundtrip_and_cleanup
    (jws_encode : Claims -> string) (jws_decode : string -> option Claims)
    (p : TrialPayload) (w w' : World) :
  codec_law jws_encode jws_decode ->
  exists token,
    signTrialToken jws_encode p w = (Ok token, advance_clock 1 w)
    /\ (clock w' (clock_reads w') / 1000
        < clock w (clock_reads w) / 1000 + seven_days ->
        verifyTrialToken jws_decode token w' = (Ok p, advance_clock 1 w'))
    /\ (clock w (clock_reads w) / 1000 + seven_days
        <= clock w' (clock_reads w') / 1000 ->
        verifyTrialToken jws_decode token w'
        = (Throw TokenExpiredError, advance_clock 1 w'))
    /\ (clock w (clock_reads w) <= startedAt p ->
        startedAt p + seven_days * 1000 < clock w' (clock_reads w') ->
        verifyTrialToken jws_decode token w'
        = (Throw TokenExpiredError, advance_clock 1 w')).
Proof.
  intros codec. eexists. split; [apply signTrialToken_returns |].
  rewrite (verifyTrialToken_signed _ _ codec).
  set (signed := clock w (clock_reads w)).
  set (now := clock w' (clock_reads w')).
  assert (Hexp : signed / 1000 + seven_days <= now / 1000 ->
                 (signed / 1000 + seven_days <=? now / 1000) = true)
    by (intros; apply Z.leb_le; assumption).
  split; [| split].
  - intros H. apply Z.leb_gt in H. rewrite H. reflexivity.
  - intros H. rewrite (Hexp H). reflexivity.
  - intros Hs Hn. rewrite Hexp; [reflexivity |].
    apply Z.div_le_lower_bound; [lia |].
    pose proof (Z.mul_div_le signed 1000 ltac:(lia)).
    unfold seven_days in *. lia.
Qed.

(** With the reference codec: a trial signed at second 5 and checked at
    second 6. *)
Lemma trial_token_roundtrip_and_cleanup_witness :
  codec_law Codec.encode Codec.decode
  /\ exists token,
      signTrialToken Codec.encode example_trial (world_at empty_store 5000)
      = (Ok token, advance_clock 1 (world_at empty_store 5000))
      /\ (6000 / 1000 < 5000 / 1000 + seven_days ->
          verifyTrialToken Codec.decode token (world_at empty_store 6000)
          = (Ok example_trial, advance_clock 1 (world_at empty_store 6000)))
      /\ (5000 / 1000 + seven_days <= 6000 / 1000 ->
          verifyTrialToken Codec.decode token (world_at empty_store 6000)
          = (Throw TokenExpiredError,
             advance_clock 1 (world_at empty_store 6000)))
      /\ (5000 <= startedAt example_trial ->
          startedAt example_trial + seven_days * 1000 < 6000 ->
          verifyTrialToken Codec.decode token (world_at empty_store 6000)
          = (Throw TokenExpiredError,
             advance_clock 1 (world_at empty_store 6000))).
Proof.
  split.
  - exact CodecFacts.decode_encode.
  - exact (trial_token_roundtrip_and_cleanup Codec.encode Codec.decode
             example_trial (world_at empty_store 5000)
             (world_at empty_store 6000) CodecFacts.decode_encode).
Defined.

(** C4 as stated fails: a trial that started at instant 0 and was signed
    thirty days later still verifies on day thirty-one, long after
    startedAt plus seven days. *)
Lemma trial_token_outlives_startedAt_window :
  0 < durationDays example_trial
  /\ startedAt example_trial + seven_days * 1000 < 31 * day_ms
  /\ exists token,
      eval (signTrialToken Codec.encode example_trial)
        (world_at empty_store (30 * day_ms)) = Ok token
      /\ eval (verifyTrialToken Codec.decode token)
           (world_at empty_store (31 * day_ms)) = Ok example_trial.
Proof.
  split; [reflexivity |]. split; [reflexivity |].
  eexists. split; vm_compute; reflexivity.
Qed.

(** ** License tokens *)

Section LicenseFacts.

Variable jws_encode : Claims -> string.
Variable jws_decode : string -> option Claims.
Hypothesis codec : codec_law jws_encode jws_decode.

(** Verifying a token signed without [expiresIn] for a payload without
    [expiresAt] reads the clock once and returns the payload. *)
Lemma verifyLicenseToken_lifetime p issued w :
  expiresAt p = None ->
  verifyLicenseToken jws_decode
    (jwt_sign jws_encode (License p) issued None) w
  = (Ok p, advance_clock 1 w).
Proof.
  intros H.
  unfold verifyLicenseToken, jwt_verify, jwt_sign, bind, Date_now.
  rewrite codec. simpl. rewrite H.
  destruct p as [n e pl pa ex]. simpl in H. subst ex. reflexivity.
Qed.

(** Whatever license verification returns is the payload of the claims
    the token decodes to. *)
Lemma jwt_verify_decodes token w c w' :
  jwt_verify jws_decode token w = (Ok c, w') -> jws_decode token = Some c.
Proof.
  unfold jwt_verify, bind, Date_now.
  destruct (jws_decode token) as [d |]; simpl; [| discriminate].
  destruct (exp d) as [e |]; [destruct (e <=? _) |]; simpl;
    intros H; inversion H; reflexivity.
Qed.

Lemma verifyLicenseToken_payload token w p :
  eval (verifyLicenseToken jws_decode token) w = Ok p ->
  exists c, jws_decode token = Some c /\ payload c = License p.
Proof.
  unfold eval, verifyLicenseToken, bind at 1.
  destruct (jwt_verify jws_decode token w) as [[c | e] w'] eqn:E;
    simpl; [| discriminate].
  intros H. exists c. split; [exact (jwt_verify_decodes token w c w' E) |].
  unfold type in H.
  destruct (payload c) as [t | l]; simpl in H; [discriminate |].
  destruct l as [n em pl pa [ex |]]; simpl in H.
  - unfold bind, Date_now in H. simpl in H.
    destruct (ex <? _); simpl in H; [discriminate |].
    inversion H. reflexivity.
  - inversion H. reflexivity.
Qed.

End LicenseFacts.

(** C5.  For every license payload whose expiresAt is null, signing
    returns a token that carries no expiry of the codec, and verifying
    that token returns the payload in every world, that is at every time
    of the check. *)
Theorem lifetime_license_verifies_forever
    (jws_encode : Claims -> string) (jws_decode : string -> option Claims)
    (p : LicensePayload) (w : World) :
  codec_law jws_encode jws_decode ->
  expiresAt p = None ->
  exists token,
    signLicenseToken jws_encode p w = (Ok token, advance_clock 1 w)
    /\ (exists c, jws_decode token = Some c /\ exp c = None)
    /\ forall w',
        verifyLicenseToken jws_decode token w' = (Ok p, advance_clock 1 w').
Proof.
  intros codec Hnull. eexists.
  split; [apply signLicenseToken_lifetime; exact Hnull |].
  split.
  - eexists. unfold jwt_sign. split; [apply codec | reflexivity].
  - intros w'. apply verifyLicenseToken_lifetime; assumption.
Qed.

(** With the reference codec and a lifetime license. *)
Lemma lifetime_license_verifies_forever_witness :
  codec_law Codec.encode Codec.decode
  /\ expiresAt example_lifetime = None
  /\ exists token,
      signLicenseToken Codec.encode example_lifetime
        (world_at empty_store 1700000000000)
      = (Ok token, advance_clock 1 (world_at empty_store 1700000000000))
      /\ (exists c, Codec.decode token = Some c /\ exp c = None)
      /\ forall w',
          verifyLicenseToken Codec.decode token w'
          = (Ok example_lifetime, advance_clock 1 w').
Proof.
  split; [exact CodecFacts.decode_encode |].
  split; [reflexivity |].
  exact (lifetime_license_verifies_forever Codec.encode Codec.decode
           example_lifetime (world_at empty_store 1700000000000)
           CodecFacts.decode_encode eq_refl).
Defined.

(** ** The store *)

Lemma storeLicense_effect key token lic meta w :
  storeLicense key token lic meta w
  = (Ok tt, with_store (stored key token lic meta (store w)) w).
Proof.
  unfold storeLicense, stored, index_insert, when_truthy, bind,
    licenses_set, paymentIntentIndex_set, subscriptionIndex_set,
    get_store, put_store, ret, with_store.
  simpl.
  destruct (present (paymentIntentId meta)),
    (present (subscriptionId meta)); reflexivity.
Qed.

Lemma getLicenseByPaymentIntent_eq id w :
  getLicenseByPaymentIntent id w
  = (Ok (through_index (store w) (paymentIntentIndex (store w) !! id)), w).
Proof. reflexivity. Qed.

Lemma getLicenseBySubscription_eq id w :
  getLicenseBySubscription id w
  = (Ok (through_index (store w) (subscriptionIndex (store w) !! id)), w).
Proof. reflexivity. Qed.

(** [updateLicense] called with [undefined] for the key changes nothing. *)
Lemma updateLicense_undefined token lic w :
  updateLicense Undefined token lic w = (Ok tt, w).
Proof. reflexivity. Qed.

Lemma present_Val id : id <> "" -> present (Val id) = Some id.
Proof. destruct id; [congruence | reflexivity]. Qed.

Lemma with_store_same w : with_store (store w) w = w.
Proof. destruct w; reflexivity. Qed.

(** ** Charge succeeded *)

Section ChargeSucceeded.

Variable jws_encode : Claims -> string.
Variable paymentIntent : PaymentIntent.
Hypothesis id_truthy : pi_id paymentIntent <> "".

(** The first delivery for an unknown id signs one lifetime license and
    stores it under a fresh key with the id in both places. *)
Lemma handlePaymentIntentSucceeded_unknown w :
  through_index (store w)
    (paymentIntentIndex (store w) !! pi_id paymentIntent) = None ->
  exists key token lic,
    handlePaymentIntentSucceeded jws_encode paymentIntent w
    = (Ok tt,
       with_store
         (stored key token lic
            {| paymentIntentId := Val (pi_id paymentIntent);
               subscriptionId := Undefined; isDevelopment := Undefined |}
            (store w))
         (advance_entropy 20 (advance_clock 2 w)))
    /\ truthy_string key = true
    /\ plan lic = "pro-lifetime" /\ expiresAt lic = None.
Proof.
  intros Hnone.
  unfold handlePaymentIntentSucceeded, bind at 1.
  rewrite getLicenseByPaymentIntent_eq, Hnone.
  unfold bind at 1. unfold Date_now at 1.
  unfold bind at 1.
  rewrite signLicenseToken_lifetime by reflexivity.
  unfold bind at 1.
  match goal with
  | |- context [generateLicenseKey ?w0] =>
      destruct (generateLicenseKey_spec w0)
        as (s1 & s2 & s3 & s4 & s5 & E & _)
  end.
  rewrite E, storeLicense_effect.
  eexists _, _, _. split; [| split; [| split]].
  - reflexivity.
  - reflexivity.
  - reflexivity.
  - reflexivity.
Qed.

Lemma handlePaymentIntentSucceeded_known w r :
  through_index (store w)
    (paymentIntentIndex (store w) !! pi_id paymentIntent) = Some r ->
  handlePaymentIntentSucceeded jws_encode paymentIntent w = (Ok tt, w).
Proof.
  intros H. unfold handlePaymentIntentSucceeded, bind.
  rewrite getLicenseByPaymentIntent_eq, H. reflexivity.
Qed.

(** After a delivery the id resolves to a record. *)
Lemma handlePaymentIntentSucceeded_known_after w :
  exists r,
    through_index
      (store (exec (handlePaymentIntentSucceeded jws_encode paymentIntent) w))
      (paymentIntentIndex
         (store (exec (handlePaymentIntentSucceeded jws_encode paymentIntent) w))
       !! pi_id paymentIntent)
    = Some r.
Proof.
  destruct (through_index (store w)
              (paymentIntentIndex (store w) !! pi_id paymentIntent))
    as [r |] eqn:E.
  - exists r. unfold exec.
    rewrite (handlePaymentIntentSucceeded_known w r E). exact E.
  - destruct (handlePaymentIntentSucceeded_unknown w E)
      as (key & token & lic & Eh & Hk & _).
    unfold exec. rewrite Eh. simpl.
    unfold index_insert. rewrite (present_Val _ id_truthy). simpl.
    rewrite lookup_insert_eq. simpl. rewrite Hk.
    rewrite lookup_insert_eq. eexists. reflexivity.
Qed.

End ChargeSucceeded.

(** C1.  Delivering the same charge-succeeded event twice stores one
    record: after the first delivery the payment-intent index resolves the
    id to a record, so the second delivery, through the handler or through
    the webhook, returns at once and leaves the whole world, the store
    included, as the first left it; this from any store.  When the id was
    unknown, the first delivery wrote exactly one record, a lifetime
    license carrying the id, and one index entry.  The id is a non-empty
    string, as every id of the processor is. *)
Theorem charge_succeeded_twice_stores_once
    (jws_encode : Claims -> string) (paymentIntent : PaymentIntent)
    (w : World) :
  pi_id paymentIntent <> "" ->
  let once := exec (handlePaymentIntentSucceeded jws_encode paymentIntent) w in
  (exists r,
      getLicenseByPaymentIntent (pi_id paymentIntent) once
      = (Ok (Some r), once))
  /\ handlePaymentIntentSucceeded jws_encode paymentIntent once
     = (Ok tt, once)
  /\ stripe_webhook jws_encode (payment_intent_succeeded paymentIntent) once
     = (Ok {| status := 200; body := received |}, once)
  /\ (getLicenseByPaymentIntent (pi_id paymentIntent) w = (Ok None, w) ->
      exists key r,
        licenses (store once) = <[key := r]> (licenses (store w))
        /\ paymentIntentIndex (store once)
           = <[pi_id paymentIntent := key]> (paymentIntentIndex (store w))
        /\ subscriptionIndex (store once) = subscriptionIndex (store w)
        /\ paymentIntentId (metadata r) = Val (pi_id paymentIntent)
        /\ plan (license r) = "pro-lifetime"
        /\ expiresAt (license r) = None).
Proof.
  intros Hid once.
  destruct (handlePaymentIntentSucceeded_known_after jws_encode paymentIntent
              Hid w) as [r Hr].
  fold once in Hr.
  assert (Hagain : handlePaymentIntentSucceeded jws_encode paymentIntent once
                   = (Ok tt, once))
    by exact (handlePaymentIntentSucceeded_known jws_encode paymentIntent
                once r Hr).
  split; [| split; [| split]].
  - exists r. rewrite getLicenseByPaymentIntent_eq, Hr. reflexivity.
  - exact Hagain.
  - unfold stripe_webhook, try_catch, bind, dispatch.
    rewrite Hagain. reflexivity.
  - rewrite getLicenseByPaymentIntent_eq. intros Hnone.
    assert (Hnone' : through_index (store w)
                       (paymentIntentIndex (store w) !! pi_id paymentIntent)
                     = None) by congruence.
    destruct (handlePaymentIntentSucceeded_unknown jws_encode paymentIntent
                w Hnone') as (key & token & lic & Eh & _ & Hp & He).
    subst once. unfold exec. rewrite Eh. simpl.
    unfold index_insert. rewrite (present_Val _ Hid). simpl.
    eexists key, _. repeat split; assumption.
Qed.

(** The intent [pi_123] delivered to an empty store. *)
Lemma charge_succeeded_twice_stores_once_witness :
  pi_id example_intent <> ""
  /\ let once :=
       exec (handlePaymentIntentSucceeded Codec.encode example_intent)
         (world_at empty_store 1700000000000) in
     (exists r,
         getLicenseByPaymentIntent (pi_id example_intent) once
         = (Ok (Some r), once))
     /\ handlePaymentIntentSucceeded Codec.encode example_intent once
        = (Ok tt, once)
     /\ stripe_webhook Codec.encode (payment_intent_succeeded example_intent)
          once
        = (Ok {| status := 200; body := received |}, once)
     /\ (getLicenseByPaymentIntent (pi_id example_intent)
           (world_at empty_store 1700000000000)
         = (Ok None, world_at empty_store 1700000000000) ->
         exists key r,
           licenses (store once) = <[key := r]> (licenses empty_store)
           /\ paymentIntentIndex (store once)
              = <[pi_id example_intent := key]> (paymentIntentIndex empty_store)
           /\ subscriptionIndex (store once) = subscriptionIndex empty_store
           /\ paymentIntentId (metadata r) = Val (pi_id example_intent)
           /\ plan (license r) = "pro-lifetime"
           /\ expiresAt (license r) = None).
Proof.
  split; [discriminate |].
  exact (charge_succeeded_twice_stores_once Codec.encode example_intent
           (world_at empty_store 1700000000000) ltac:(discriminate)).
Defined.

(** ** Subscription events *)

Section SubscriptionEvents.

Variable jws_encode : Claims -> string.

Lemma handleSubscriptionChanged_unknown subscription w :
  getLicenseBySubscription (sub_id subscription) w = (Ok None, w) ->
  handleSubscriptionChanged jws_encode subscription w = (Ok tt, w).
Proof.
  intros H. unfold handleSubscriptionChanged, bind. rewrite H. reflexivity.
Qed.

Lemma handleSubscriptionChanged_inactive subscription w :
  sub_status subscription <> "active" ->
  handleSubscriptionChanged jws_encode subscription w = (Ok tt, w).
Proof.
  intros H. apply String.eqb_neq in H.
  unfold handleSubscriptionChanged, bind.
  rewrite getLicenseBySubscription_eq, H.
  destruct (through_index _ _); reflexivity.
Qed.

(** For a known id and the status [active] the handler signs a new
    token and hands it to [updateLicense] under [existing.key], which is
    [undefined]: two readings of the clock are all that happens. *)
Lemma handleSubscriptionChanged_active subscription existing w :
  getLicenseBySubscription (sub_id subscription) w
  = (Ok (Some existing), w) ->
  sub_status subscription = "active" ->
  handleSubscriptionChanged jws_encode subscription w
  = (Ok tt, advance_clock 2 w).
Proof.
  intros H Hs. unfold handleSubscriptionChanged, bind at 1.
  rewrite H, Hs, String.eqb_refl.
  unfold bind. cbv beta iota.
  rewrite (signLicenseToken_dated jws_encode _
             (sub_current_period_end subscription * 1000))
    by reflexivity.
  reflexivity.
Qed.

Lemma handleSubscriptionDeleted_unknown subscription w :
  getLicenseBySubscription (sub_id subscription) w = (Ok None, w) ->
  handleSubscriptionDeleted jws_encode subscription w = (Ok tt, w).
Proof.
  intros H. unfold handleSubscriptionDeleted, bind. rewrite H. reflexivity.
Qed.

(** The same for the deleted subscription: three readings of the clock
    and no write. *)
Lemma handleSubscriptionDeleted_known subscription existing w :
  getLicenseBySubscription (sub_id subscription) w
  = (Ok (Some existing), w) ->
  handleSubscriptionDeleted jws_encode subscription w
  = (Ok tt, advance_clock 3 w).
Proof.
  intros H. unfold handleSubscriptionDeleted, bind at 1.
  rewrite H. unfold bind at 1. unfold Date_now at 1.
  unfold bind.
  rewrite (signLicenseToken_dated jws_encode _ (clock w (clock_reads w)))
    by reflexivity.
  reflexivity.
Qed.

End SubscriptionEvents.

(** C2 (defect of the code).  For a subscription id with a record and the
    status active the handler reads [existing.key], which the stored
    objects do not have, so [updateLicense] is called with [undefined] and
    updates nothing: the store is as before and the id still resolves to
    the same record, whose expiresAt has therefore not increased. *)
Theorem renewal_never_reaches_the_store
    (jws_encode : Claims -> string) (subscription : Subscription)
    (existing : LicenseRecord) (w : World) :
  getLicenseBySubscription (sub_id subscription) w = (Ok (Some existing), w) ->
  sub_status subscription = "active" ->
  let after := exec (handleSubscriptionChanged jws_encode subscription) w in
  store after = store w
  /\ getLicenseBySubscription (sub_id subscription) after
     = (Ok (Some existing), after).
Proof.
  intros H Hs after. subst after. unfold exec.
  rewrite (handleSubscriptionChanged_active jws_encode subscription existing
             w H Hs).
  simpl. split; [reflexivity |].
  rewrite getLicenseBySubscription_eq in *. simpl.
  inversion H as [H']. rewrite H'. reflexivity.
Qed.

(** The failing input of C2: the record of [sub_1] expires a year after
    the purchase, the event reports a period that ends a year later
    still, and after the event the record expires when it did before. *)
Lemma renewal_never_reaches_the_store_witness :
  let subscription :=
    example_subscription "active" ((example_bought + 2 * year_ms) / 1000) in
  let w := world_at example_annual_store (example_bought + 360 * day_ms) in
  let existing :=
    {| fullToken := example_annual_token; license := example_annual;
       metadata := {| paymentIntentId := Undefined;
                      subscriptionId := Val "sub_1";
                      isDevelopment := Undefined |} |} in
  let after := exec (handleSubscriptionChanged Codec.encode subscription) w in
  getLicenseBySubscription (sub_id subscription) w = (Ok (Some existing), w)
  /\ sub_status subscription = "active"
  /\ expiresAt (license existing) = Some (example_bought + year_ms)
  /\ example_bought + year_ms < sub_current_period_end subscription * 1000
  /\ store after = store w
  /\ getLicenseBySubscription (sub_id subscription) after
     = (Ok (Some existing), after).
Proof.
  intros subscription w existing after.
  split; [reflexivity |]. split; [reflexivity |].
  split; [reflexivity |]. split; [reflexivity |].
  exact (renewal_never_reaches_the_store Codec.encode subscription existing w
           eq_refl eq_refl).
Defined.

(** C3 (defect of the code).  For a subscription id with a record the
    deletion handler computes the expired payload and its token and hands
    them to [updateLicense] under [existing.key], which is [undefined]:
    nothing is written, the store is as before and the id resolves to the
    same record with the same token and the same expiresAt. *)
Theorem revocation_never_reaches_the_store
    (jws_encode : Claims -> string) (subscription : Subscription)
    (existing : LicenseRecord) (w : World) :
  getLicenseBySubscription (sub_id subscription) w = (Ok (Some existing), w) ->
  let after := exec (handleSubscriptionDeleted jws_encode subscription) w in
  store after = store w
  /\ getLicenseBySubscription (sub_id subscription) after
     = (Ok (Some existing), after).
Proof.
  intros H after. subst after. unfold exec.
  rewrite (handleSubscriptionDeleted_known jws_encode subscription existing
             w H).
  simpl. split; [reflexivity |].
  rewrite getLicenseBySubscription_eq in *. simpl.
  inversion H as [H']. rewrite H'. reflexivity.
Qed.

(** The failing input of C3: [sub_1] is deleted on day 100 of its year;
    the record still expires at the end of the year, and on day 101 its
    stored token verifies. *)
Lemma revocation_never_reaches_the_store_witness :
  let subscription := example_subscription "canceled" 0 in
  let w := world_at example_annual_store (example_bought + 100 * day_ms) in
  let existing :=
    {| fullToken := example_annual_token; license := example_annual;
       metadata := {| paymentIntentId := Undefined;
                      subscriptionId := Val "sub_1";
                      isDevelopment := Undefined |} |} in
  let after := exec (handleSubscriptionDeleted Codec.encode subscription) w in
  getLicenseBySubscription (sub_id subscription) w = (Ok (Some existing), w)
  /\ example_bought + 100 * day_ms < example_bought + year_ms
  /\ eval (verifyLicenseToken Codec.decode (fullToken existing))
       (world_at example_annual_store (example_bought + 101 * day_ms))
     = Ok example_annual
  /\ store after = store w
  /\ getLicenseBySubscription (sub_id subscription) after
     = (Ok (Some existing), after).
Proof.
  intros subscription w existing after.
  split; [reflexivity |]. split; [reflexivity |].
  split; [vm_compute; reflexivity |].
  exact (revocation_never_reaches_the_store Codec.encode subscription
           existing w eq_refl).
Defined.

(** C10.  A subscription created or updated event whose status is not
    active changes nothing, whether or not the id has a record: the
    handler, the dispatch and the webhook leave the whole world, and so
    every record, token, payload and index of the store, as it was. *)
Theorem inactive_subscription_event_changes_nothing
    (jws_encode : Claims -> string) (subscription : Subscription)
    (w : World) :
  sub_status subscription <> "active" ->
  dispatch jws_encode (customer_subscription_updated subscription) w
  = (Ok tt, w)
  /\ dispatch jws_encode (customer_subscription_created subscription) w
     = (Ok tt, w)
  /\ stripe_webhook jws_encode (customer_subscription_updated subscription) w
     = (Ok {| status := 200; body := received |}, w)
  /\ stripe_webhook jws_encode (customer_subscription_created subscription) w
     = (Ok {| status := 200; body := received |}, w).
Proof.
  intros H.
  pose proof (handleSubscriptionChanged_inactive jws_encode subscription w H)
    as E.
  unfold stripe_webhook, try_catch, bind, dispatch. rewrite E.
  repeat split.
Qed.

(** The subscription [sub_1], which has a record, reported as past due. *)
Lemma inactive_subscription_event_changes_nothing_witness :
  let subscription := example_subscription "past_due" 0 in
  let w := world_at example_annual_store (example_bought + 100 * day_ms) in
  sub_status subscription <> "active"
  /\ (exists existing,
        getLicenseBySubscription (sub_id subscription) w
        = (Ok (Some existing), w))
  /\ dispatch Codec.encode (customer_subscription_updated subscription) w
     = (Ok tt, w)
  /\ dispatch Codec.encode (customer_subscription_created subscription) w
     = (Ok tt, w)
  /\ stripe_webhook Codec.encode (customer_subscription_updated subscription) w
     = (Ok {| status := 200; body := received |}, w)
  /\ stripe_webhook Codec.encode (customer_subscription_created subscription) w
     = (Ok {| status := 200; body := received |}, w).
Proof.
  intros subscription w.
  split; [discriminate |].
  split; [eexists; reflexivity |].
  exact (inactive_subscription_event_changes_nothing Codec.encode
           subscription w ltac:(discriminate)).
Defined.

(** ** Issuance after payment *)

Section Issuance.

Variable jws_encode : Claims -> string.
Variable paymentIntents_retrieve : string -> option PaymentIntent.
Variable subscriptions_retrieve : string -> option Subscription.
Variable customers_retrieve : string -> option Customer.

(** Checking a payment intent touches nothing and says yes only for a
    confirmed charge. *)
Lemma verifyStripePayment_payment_intent id w :
  exists v,
    verifyStripePayment paymentIntents_retrieve subscriptions_retrieve
      customers_retrieve "payment_intent" id w = (Ok v, w)
    /\ (success v = true ->
        charge_confirmed paymentIntents_retrieve customers_retrieve id).
Proof.
  unfold verifyStripePayment, try_catch, bind, await, charge_confirmed,
    customer_known.
  simpl String.eqb. cbv iota.
  destruct (paymentIntents_retrieve id) as [o |] eqn:Eo; simpl;
    [| eexists; split; [reflexivity | discriminate]].
  destruct (String.eqb (pi_status o) "succeeded") eqn:Es; simpl;
    [| eexists; split; [reflexivity | discriminate]].
  apply String.eqb_eq in Es.
  destruct (present (pi_customer o)) as [c |] eqn:Ec; simpl.
  - destruct (customers_retrieve c) as [cu |] eqn:Ecu; simpl.
    + eexists; split; [reflexivity |]. intros _.
      exists o. split; [reflexivity | split; [assumption |]].
      intros id' Hid'. congruence.
    + eexists; split; [reflexivity | discriminate].
  - eexists; split; [reflexivity |]. intros _.
    exists o. split; [reflexivity | split; [assumption |]].
    intros id' Hid'. congruence.
Qed.

Lemma verifyStripePayment_subscription id w :
  exists v,
    verifyStripePayment paymentIntents_retrieve subscriptions_retrieve
      customers_retrieve "subscription" id w = (Ok v, w)
    /\ (success v = true ->
        subscription_confirmed subscriptions_retrieve customers_retrieve id).
Proof.
  unfold verifyStripePayment, try_catch, bind, await,
    subscription_confirmed, customer_known.
  simpl String.eqb. cbv iota.
  destruct (subscriptions_retrieve id) as [o |] eqn:Eo; simpl;
    [| eexists; split; [reflexivity | discriminate]].
  destruct (String.eqb (sub_status o) "active"
            || String.eqb (sub_status o) "trialing") eqn:Es; simpl;
    [| eexists; split; [reflexivity | discriminate]].
  assert (Hst : sub_status o = "active" \/ sub_status o = "trialing").
  { apply orb_true_iff in Es. destruct Es as [Es | Es];
      apply String.eqb_eq in Es; auto. }
  destruct (present (sub_customer o)) as [c |] eqn:Ec; simpl.
  - destruct (customers_retrieve c) as [cu |] eqn:Ecu; simpl.
    + eexists; split; [reflexivity |]. intros _.
      exists o. split; [reflexivity | split; [assumption |]].
      intros id' Hid'. congruence.
    + eexists; split; [reflexivity | discriminate].
  - eexists; split; [reflexivity |]. intros _.
    exists o. split; [reflexivity | split; [assumption |]].
    intros id' Hid'. congruence.
Qed.

Lemma plan_is_eq plan p : plan_is plan p = true -> plan = Val p.
Proof.
  destruct plan as [| | q]; simpl; try discriminate.
  intros H. apply String.eqb_eq in H. congruence.
Qed.

(** The two branches touch nothing and set [paymentVerified] only for
    a confirmed payment. *)
Lemma verify_payment_sound plan paymentIntentId subscriptionId w :
  exists v info,
    verify_payment paymentIntents_retrieve subscriptions_retrieve
      customers_retrieve plan paymentIntentId subscriptionId w
    = (Ok (v, info), w)
    /\ (v = true ->
        payment_confirmed paymentIntents_retrieve subscriptions_retrieve
          customers_retrieve plan paymentIntentId subscriptionId).
Proof.
  unfold verify_payment, payment_confirmed.
  destruct (plan_is plan "lifetime") eqn:El.
  - apply plan_is_eq in El.
    destruct (present paymentIntentId) as [pid |] eqn:Ep.
    + destruct (verifyStripePayment_payment_intent pid w) as (v & E & Hv).
      unfold bind. rewrite E. eexists _, _. split; [reflexivity |].
      intros Hs. left. split; [assumption |]. exists pid. auto.
    + subst plan. simpl. eexists _, _. split; [reflexivity | discriminate].
  - destruct (plan_is plan "annual") eqn:Ea.
    + apply plan_is_eq in Ea.
      destruct (present subscriptionId) as [sid |] eqn:Es.
      * destruct (verifyStripePayment_subscription sid w) as (v & E & Hv).
        unfold bind. rewrite E. eexists _, _. split; [reflexivity |].
        intros Hs. right. split; [assumption |]. exists sid. auto.
      * eexists _, _. split; [reflexivity | discriminate].
    + eexists _, _. split; [reflexivity | discriminate].
Qed.

End Issuance.

(** C6.  On the synchronous issuance path, whenever the processor does
    not confirm a payment of the plan named by the request (no id for the
    plan, an id the processor cannot retrieve, a status that is not
    confirmed, a failure while verifying), the response is a 400, with the
    error [Payment not verified] when the plan is valid, and the world is
    exactly as before: no reading of the clock and no draw, hence no token
    signed and no key generated, and the store unchanged. *)
Theorem unverified_payment_issues_nothing
    (jws_encode : Claims -> string)
    (paymentIntents_retrieve : string -> option PaymentIntent)
    (subscriptions_retrieve : string -> option Subscription)
    (customers_retrieve : string -> option Customer)
    (plan paymentIntentId subscriptionId : nullable string) (w : World) :
  ~ payment_confirmed paymentIntents_retrieve subscriptions_retrieve
      customers_retrieve plan paymentIntentId subscriptionId ->
  exists b,
    payments_license jws_encode paymentIntents_retrieve subscriptions_retrieve
      customers_retrieve plan paymentIntentId subscriptionId w
    = (Ok {| status := 400; body := b |}, w)
    /\ (valid_plan plan = true -> b = failure "Payment not verified")
    /\ (valid_plan plan = false -> b = failure "Invalid plan").
Proof.
  intros Hnot. unfold payments_license, try_catch.
  destruct (valid_plan plan) eqn:Ev; simpl.
  - destruct (verify_payment_sound paymentIntents_retrieve
                subscriptions_retrieve customers_retrieve
                plan paymentIntentId subscriptionId w)
      as (v & info & E & Hv).
    unfold bind at 1. rewrite E.
    destruct v.
    + exfalso. apply Hnot, Hv. reflexivity.
    + simpl. eexists. split; [reflexivity |].
      split; [reflexivity | discriminate].
  - eexists. split; [reflexivity |].
    split; [discriminate | reflexivity].
Qed.

(** A lifetime request for [pi_123] while the processor reports that it
    still waits for its payment method. *)
Lemma unverified_payment_issues_nothing_witness :
  let w := world_at example_annual_store 1700000000000 in
  ~ payment_confirmed pending_paymentIntents no_subscriptions no_customers
      (Val "lifetime") (Val "pi_123") Undefined
  /\ exists b,
      payments_license Codec.encode pending_paymentIntents no_subscriptions
        no_customers (Val "lifetime") (Val "pi_123") Undefined w
      = (Ok {| status := 400; body := b |}, w)
      /\ (valid_plan (Val "lifetime") = true ->
          b = failure "Payment not verified")
      /\ (valid_plan (Val "lifetime") = false -> b = failure "Invalid plan").
Proof.
  intros w.
  assert (Hnot : ~ payment_confirmed pending_paymentIntents no_subscriptions
                     no_customers (Val "lifetime") (Val "pi_123") Undefined).
  { intros [[_ (id & Hid & o & Ho & Hs & _)] | [Hplan _]].
    - simpl in Hid. inversion Hid; subst id.
      vm_compute in Ho. inversion Ho; subst o.
      discriminate Hs.
    - discriminate Hplan. }
  split; [exact Hnot |].
  exact (unverified_payment_issues_nothing Codec.encode pending_paymentIntents
           no_subscriptions no_customers (Val "lifetime") (Val "pi_123")
           Undefined w Hnot).
Defined.

(** ** License verify and redeem *)

Lemma run_eq {A} (m : M A) (w : World) : m w = (eval m w, exec m w).
Proof. unfold eval, exec. destruct (m w); reflexivity. Qed.

Section VerifyAndRedeem.

Variable jws_encode : Claims -> string.
Variable jws_decode : string -> option Claims.
Hypothesis codec : codec_law jws_encode jws_decode.

Lemma keeps_store_license_verify licenseKey :
  keeps_store (license_verify jws_encode jws_decode licenseKey).
Proof.
  unfold license_verify.
  apply keeps_store_try_catch; [| intros e; auto with keeps_store].
  destruct (present licenseKey) as [k |]; [| auto with keeps_store].
  apply keeps_store_bind.
  - apply keeps_store_try_catch;
      [apply keeps_store_verifyLicenseToken | intros e].
    apply keeps_store_bind; [apply keeps_store_getLicenseByKey |].
    intros [r |];
      [apply keeps_store_verifyLicenseToken | auto with keeps_store].
  - intros lic. apply keeps_store_bind;
      [apply keeps_store_signLicenseToken | auto with keeps_store].
Qed.


End VerifyAndRedeem.

Section VerifyCases.

Variable jws_encode : Claims -> string.
Variable jws_decode : string -> option Claims.
Hypothesis codec : codec_law jws_encode jws_decode.





End VerifyCases.



(** ** The store at construction *)

Section Construction.

Variable jws_encode : Claims -> string.
Variable jws_decode : string -> option Claims.
Hypothesis codec : codec_law jws_encode jws_decode.

(** The constructor reads the clock four times and leaves two
    records and empty indexes. *)
Lemma LicenseStore_new_licenses boot :
  exists annual,
    store (exec (LicenseStore_new jws_encode) boot)
    = {| licenses :=
           <["PFW-DEV0-ANNU-AL00-TEST" := annual]>
             (<["PFW-DEV0-LIFE-TIME-TEST" :=
                  {| fullToken :=
                       jwt_sign jws_encode (License dev_lifetime)
                         (clock boot (S (clock_reads boot)) / 1000) None;
                     license := dev_lifetime;
                     metadata := dev_metadata |}]> ∅);
         paymentIntentIndex := ∅;
         subscriptionIndex := ∅ |}.
Proof. eexists. reflexivity. Qed.

Lemma license_redeem_lifetime key token lic issued w :
  present key = Some token ->
  licenses (store w) !! token
  = Some {| fullToken := jwt_sign jws_encode (License lic) issued None;
            license := lic; metadata := dev_metadata |} ->
  expiresAt lic = None ->
  license_redeem jws_decode key w
  = (Ok {| status := 200;
           body := redeemed (jwt_sign jws_encode (License lic) issued None) |},
     advance_clock 1 w).
Proof.
  intros Hk Hr Hnull.
  unfold license_redeem, try_catch. rewrite Hk.
  unfold bind at 1. unfold getLicenseByKey, get_store, ret, bind at 1.
  cbv beta iota. rewrite Hr. cbv beta iota.
  unfold bind. simpl fullToken.
  rewrite (verifyLicenseToken_lifetime jws_encode jws_decode codec
             lic issued w Hnull).
  reflexivity.
Qed.

End Construction.

(** C9.  The constructor of the store seeds it with two development
    records, under [PFW-DEV0-LIFE-TIME-TEST] and [PFW-DEV0-ANNU-AL00-TEST],
    and empty indexes.  In every world whose store is still the one the
    constructor left, so before any payment, redeeming
    [PFW-DEV0-LIFE-TIME-TEST] answers 200 with the stored token, whose
    claims carry the plan [pro-lifetime] and expiresAt null. *)
Theorem development_key_redeems_from_the_start
    (jws_encode : Claims -> string) (jws_decode : string -> option Claims)
    (boot w : World) :
  codec_law jws_encode jws_decode ->
  store w = store (exec (LicenseStore_new jws_encode) boot) ->
  dom (licenses (store w))
  = ({[ "PFW-DEV0-LIFE-TIME-TEST"; "PFW-DEV0-ANNU-AL00-TEST" ]} : gset string)
  /\ paymentIntentIndex (store w) = ∅
  /\ subscriptionIndex (store w) = ∅
  /\ exists token c lic,
      license_redeem jws_decode (Val "PFW-DEV0-LIFE-TIME-TEST") w
      = (Ok {| status := 200; body := redeemed token |}, advance_clock 1 w)
      /\ jws_decode token = Some c
      /\ payload c = License lic
      /\ plan lic = "pro-lifetime"
      /\ expiresAt lic = None.
Proof.
  intros codec Hstore.
  destruct (LicenseStore_new_licenses jws_encode boot) as [annual Hnew].
  rewrite Hnew in Hstore.
  split; [| split; [| split]].
  - rewrite Hstore. simpl.
    rewrite !dom_insert_L, dom_empty_L. set_solver.
  - rewrite Hstore. reflexivity.
  - rewrite Hstore. reflexivity.
  - eexists _, _, dev_lifetime.
    split; [| split; [| split; [| split]]].
    + apply (license_redeem_lifetime jws_encode jws_decode codec
               (Val "PFW-DEV0-LIFE-TIME-TEST") "PFW-DEV0-LIFE-TIME-TEST"
               dev_lifetime
               (clock boot (S (clock_reads boot)) / 1000) w);
        [reflexivity | | reflexivity].
      rewrite Hstore. simpl.
      rewrite lookup_insert_ne by discriminate.
      apply lookup_insert_eq.
    + unfold jwt_sign. apply codec.
    + reflexivity.
    + reflexivity.
    + reflexivity.
Qed.

(** The store right after its construction, with the reference codec. *)
Lemma development_key_redeems_from_the_start_witness :
  let boot := world_at empty_store 1700000000000 in
  let w := exec (LicenseStore_new Codec.encode) boot in
  codec_law Codec.encode Codec.decode
  /\ store w = store (exec (LicenseStore_new Codec.encode) boot)
  /\ dom (licenses (store w))
     = ({[ "PFW-DEV0-LIFE-TIME-TEST"; "PFW-DEV0-ANNU-AL00-TEST" ]}
        : gset string)
  /\ paymentIntentIndex (store w) = ∅
  /\ subscriptionIndex (store w) = ∅
  /\ exists token c lic,
      license_redeem Codec.decode (Val "PFW-DEV0-LIFE-TIME-TEST") w
      = (Ok {| status := 200; body := redeemed token |}, advance_clock 1 w)
      /\ Codec.decode token = Some c
      /\ payload c = License lic
      /\ plan lic = "pro-lifetime"
      /\ expiresAt lic = None.
Proof.
  intros boot w.
  split; [exact CodecFacts.decode_encode |].
  split; [reflexivity |].
  exact (development_key_redeems_from_the_start Codec.encode Codec.decode
           boot w CodecFacts.decode_encode eq_refl).
Defined.

(** * Facts about the further code *)

(** ** The rate limiter *)

Lemma limiter_other windowMs max message ip ip' now hits :
  ip' <> ip ->
  snd (limiter windowMs max message ip' now hits) !! ip = hits !! ip.
Proof.
  intros Hne. unfold limiter.
  destruct (hits !! ip') as [e |]; simpl.
  - destruct (resetAt e <? now); simpl;
      [apply lookup_insert_ne; exact Hne |].
    destruct (max <=? count e); simpl;
      [reflexivity | apply lookup_insert_ne; exact Hne].
  - apply lookup_insert_ne; exact Hne.
Qed.

(** Inside the window of its entry an address gets through as often as
    it asks, until its count has reached [max]. *)
Lemma admitted_inside_window windowMs max message ip requests :
  forall hits e,
    hits !! ip = Some e ->
    Forall (fun r => fst r = ip -> snd r <= resetAt e) requests ->
    Z.of_nat (admitted windowMs max message ip requests hits)
    = Z.min (Z.of_nat (requests_of ip requests)) (Z.max 0 (max - count e)).
Proof.
  induction requests as [| [ip' now] rest IH]; intros hits e He Hall.
  - simpl. lia.
  - inversion Hall as [| ? ? Hnow Hrest]; subst. simpl in Hnow.
    cbn [admitted requests_of].
    destruct (limiter windowMs max message ip' now hits)
      as [answer hits'] eqn:El.
    destruct (String.eqb ip' ip) eqn:Eip.
    + apply String.eqb_eq in Eip. subst ip'.
      specialize (Hnow eq_refl).
      unfold limiter in El. rewrite He in El.
      assert (Hw : (resetAt e <? now) = false) by (apply Z.ltb_ge; lia).
      rewrite Hw in El.
      destruct (max <=? count e) eqn:Em;
        injection El as Ea Eh; subst answer hits'.
      * apply Z.leb_le in Em.
        specialize (IH hits e He Hrest). lia.
      * apply Z.leb_gt in Em.
        specialize (IH (<[ip := {| count := count e + 1;
                                   resetAt := resetAt e |}]> hits)
                      {| count := count e + 1; resetAt := resetAt e |}
                      (lookup_insert_eq _ _ _) Hrest).
        simpl in IH. lia.
    + apply String.eqb_neq in Eip.
      pose proof (limiter_other windowMs max message ip ip' now hits Eip)
        as Ho.
      rewrite El in Ho. simpl in Ho.
      assert (He' : hits' !! ip = Some e) by (rewrite Ho; exact He).
      specialize (IH hits' e He' Hrest). lia.
Qed.

(** X1.  Whatever other addresses do in between, of the requests of one
    address that fall into one window, from the request that opens it at
    [start] up to [start + windowMs], exactly the first [max] are let
    through, and the first alone when [max] is below one: the request
    that opens a window is never counted against [max]. *)
Theorem limiter_admits_the_first_max
    (windowMs max : Z) (message ip : string) (start : Z)
    (rest : list (string * Z)) (hits : gmap string Hit) :
  match hits !! ip with
  | Some e => resetAt e < start
  | None => True
  end ->
  Forall (fun r => fst r = ip -> snd r <= start + windowMs) rest ->
  Z.of_nat (admitted windowMs max message ip ((ip, start) :: rest) hits)
  = Z.min (Z.of_nat (requests_of ip ((ip, start) :: rest))) (Z.max 1 max).
Proof.
  intros Hfresh Hall. cbn [admitted requests_of].
  assert (El : limiter windowMs max message ip start hits
               = (None, <[ip := {| count := 1;
                                   resetAt := start + windowMs |}]> hits)).
  { unfold limiter. destruct (hits !! ip) as [e |]; [| reflexivity].
    apply Z.ltb_lt in Hfresh. rewrite Hfresh. reflexivity. }
  rewrite El, String.eqb_refl.
  pose proof (admitted_inside_window windowMs max message ip rest
                (<[ip := {| count := 1; resetAt := start + windowMs |}]> hits)
                {| count := 1; resetAt := start + windowMs |}
                (lookup_insert_eq _ _ _) Hall) as H.
  simpl in H. lia.
Qed.

(** The limiter hands out the whole of [paymentLimiter]'s quota of five:
    seven requests of one address in one window, another address in
    between. *)
Lemma limiter_admits_the_first_max_witness :
  let rest := [("10.0.0.1", 10); ("10.0.0.9", 15); ("10.0.0.1", 20);
               ("10.0.0.1", 30); ("10.0.0.1", 40); ("10.0.0.1", 50);
               ("10.0.0.1", 900000)] in
  match (∅ : gmap string Hit) !! "10.0.0.1" with
  | Some e => resetAt e < 0
  | None => True
  end
  /\ Forall (fun r => fst r = "10.0.0.1" -> snd r <= 0 + 15 * 60 * 1000) rest
  /\ Z.of_nat (admitted (15 * 60 * 1000) 5
                 "Too many payment requests, please try again later."
                 "10.0.0.1" (("10.0.0.1", 0) :: rest) ∅)
     = Z.min (Z.of_nat (requests_of "10.0.0.1" (("10.0.0.1", 0) :: rest)))
         (Z.max 1 5).
Proof.
  intros rest.
  assert (Hall : Forall (fun r => fst r = "10.0.0.1"
                                  -> snd r <= 0 + 15 * 60 * 1000) rest)
    by (repeat constructor; simpl; lia).
  split; [exact I |]. split; [exact Hall |].
  exact (limiter_admits_the_first_max (15 * 60 * 1000) 5
           "Too many payment requests, please try again later."
           "10.0.0.1" 0 rest ∅ I Hall).
Defined.

(** Every deadline in the map lies within a window of the latest request
    seen. *)
Lemma limiter_run_deadlines windowMs max message latest requests :
  forall hits,
    Forall (fun r => snd r <= latest) requests ->
    (forall ip e, hits !! ip = Some e -> resetAt e <= latest + windowMs) ->
    forall ip e,
      snd (limiter_run windowMs max message requests hits) !! ip = Some e ->
      resetAt e <= latest + windowMs.
Proof.
  induction requests as [| [ip' now] rest IH]; intros hits Hall Hinv.
  - exact Hinv.
  - inversion Hall as [| ? ? Hnow Hrest]; subst. simpl in Hnow.
    cbn [limiter_run].
    destruct (limiter windowMs max message ip' now hits)
      as [answer hits'] eqn:El.
    destruct (limiter_run windowMs max message rest hits')
      as [answers hits''] eqn:Er.
    simpl.
    specialize (IH hits' Hrest). rewrite Er in IH. simpl in IH.
    apply IH. clear IH Er.
    intros ip e He.
    unfold limiter in El.
    destruct (hits !! ip') as [e' |] eqn:E'.
    + destruct (resetAt e' <? now).
      * injection El as _ Eh. subst hits'.
        destruct (decide (ip' = ip)) as [-> | Hne].
        -- rewrite lookup_insert_eq in He. injection He as <-. simpl. lia.
        -- rewrite lookup_insert_ne in He by exact Hne. eauto.
      * destruct (max <=? count e').
        -- injection El as _ Eh. subst hits'. eauto.
        -- injection El as _ Eh. subst hits'.
           destruct (decide (ip' = ip)) as [-> | Hne].
           ++ rewrite lookup_insert_eq in He. injection He as <-. simpl.
              eauto.
           ++ rewrite lookup_insert_ne in He by exact Hne. eauto.
    + injection El as _ Eh. subst hits'.
      destruct (decide (ip' = ip)) as [-> | Hne].
      * rewrite lookup_insert_eq in He. injection He as <-. simpl. lia.
      * rewrite lookup_insert_ne in He by exact Hne. eauto.
Qed.

(** X2.  Nobody stays locked out: after any requests whatever, none
    later than [latest], a request that arrives more than [windowMs]
    after [latest] is let through and opens a new window with the count
    at one. *)
Theorem limiter_lets_through_after_a_window
    (windowMs max : Z) (message ip : string) (latest now : Z)
    (requests : list (string * Z)) :
  Forall (fun r => snd r <= latest) requests ->
  latest + windowMs < now ->
  let hits := snd (limiter_run windowMs max message requests ∅) in
  limiter windowMs max message ip now hits
  = (None, <[ip := {| count := 1; resetAt := now + windowMs |}]> hits).
Proof.
  intros Hall Hnow hits.
  pose proof (limiter_run_deadlines windowMs max message latest requests ∅
                Hall) as Hinv.
  unfold limiter.
  destruct (hits !! ip) as [e |] eqn:He; [| reflexivity].
  assert (Hle : resetAt e <= latest + windowMs).
  { apply (Hinv ltac:(intros ? ? H; rewrite lookup_empty in H; discriminate)
             ip e He). }
  assert (Hlt : (resetAt e <? now) = true) by (apply Z.ltb_lt; lia).
  rewrite Hlt. reflexivity.
Qed.

(** Seven license requests in a burst: the last ones are turned away,
    and a quarter of an hour and a millisecond after the burst the
    address is served again by [licenseLimiter]. *)
Lemma limiter_lets_through_after_a_window_witness :
  let requests := [("10.0.0.1", 0); ("10.0.0.1", 1); ("10.0.0.1", 2);
                   ("10.0.0.1", 3); ("10.0.0.1", 4); ("10.0.0.1", 5);
                   ("10.0.0.1", 6)] in
  let hits :=
    snd (limiter_run (15 * 60 * 1000) 10
           "Too many license requests, please try again later."
           requests ∅) in
  Forall (fun r => snd r <= 6) requests
  /\ 6 + 15 * 60 * 1000 < 900007
  /\ licenseLimiter "10.0.0.1" 900007 hits
     = (None,
        <["10.0.0.1" := {| count := 1;
                           resetAt := 900007 + 15 * 60 * 1000 |}]> hits).
Proof.
  intros requests hits.
  assert (Hall : Forall (fun r => snd r <= 6) requests)
    by (repeat constructor; simpl; lia).
  split; [exact Hall |]. split; [lia |].
  exact (limiter_lets_through_after_a_window (15 * 60 * 1000) 10
           "Too many license requests, please try again later." "10.0.0.1"
           6 900007 requests Hall ltac:(lia)).
Defined.

Lemma limiter_same windowMs max message ip now hits1 hits2 :
  hits1 !! ip = hits2 !! ip ->
  fst (limiter windowMs max message ip now hits1)
  = fst (limiter windowMs max message ip now hits2)
  /\ snd (limiter windowMs max message ip now hits1) !! ip
     = snd (limiter windowMs max message ip now hits2) !! ip.
Proof.
  intros H. unfold limiter. rewrite H.
  destruct (hits2 !! ip) as [e |] eqn:E; simpl.
  - destruct (resetAt e <? now); simpl;
      [rewrite !lookup_insert_eq; auto |].
    destruct (max <=? count e); simpl;
      [split; [reflexivity | congruence]
      | rewrite !lookup_insert_eq; auto].
  - rewrite !lookup_insert_eq; auto.
Qed.

Lemma admitted_own_requests windowMs max message ip requests :
  forall hits1 hits2,
    hits1 !! ip = hits2 !! ip ->
    admitted windowMs max message ip requests hits1
    = admitted windowMs max message ip (requests_from ip requests) hits2.
Proof.
  induction requests as [| [ip' now] rest IH]; intros hits1 hits2 H.
  - reflexivity.
  - cbn [admitted requests_from].
    destruct (String.eqb ip' ip) eqn:Eip.
    + apply String.eqb_eq in Eip. subst ip'.
      cbn [admitted]. rewrite String.eqb_refl.
      destruct (limiter_same windowMs max message ip now hits1 hits2 H)
        as [Ha Hh].
      destruct (limiter windowMs max message ip now hits1) as [a1 h1].
      destruct (limiter windowMs max message ip now hits2) as [a2 h2].
      simpl in Ha, Hh. subst a2.
      rewrite (IH h1 h2 Hh). reflexivity.
    + apply String.eqb_neq in Eip.
      pose proof (limiter_other windowMs max message ip ip' now hits1 Eip)
        as Ho.
      destruct (limiter windowMs max message ip' now hits1) as [a1 h1].
      simpl in Ho. simpl.
      apply IH. congruence.
Qed.

(** X3.  The limiter treats each address on its own: how many requests of
    an address are let through is the same with and without the requests
    of all other addresses in between. *)
Theorem limiter_counts_each_address_alone
    (windowMs max : Z) (message ip : string)
    (requests : list (string * Z)) (hits : gmap string Hit) :
  admitted windowMs max message ip requests hits
  = admitted windowMs max message ip (requests_from ip requests) hits.
Proof. apply admitted_own_requests. reflexivity. Qed.

(** ** License and trial tokens *)

Lemma jwt_verify_ok jws_decode token w c w' :
  jwt_verify jws_decode token w = (Ok c, w') ->
  jws_decode token = Some c
  /\ w' = advance_clock 1 w
  /\ (forall x, exp c = Some x -> clock w (clock_reads w) / 1000 < x).
Proof.
  unfold jwt_verify, bind, Date_now.
  destruct (jws_decode token) as [d |]; simpl; [| discriminate].
  destruct (exp d) as [x |] eqn:Ex.
  - destruct (x <=? clock w (clock_reads w) / 1000) eqn:E; simpl;
      intros H; inversion H; subst.
    split; [reflexivity |]. split; [reflexivity |].
    intros y Hy. rewrite Ex in Hy. injection Hy as <-.
    apply Z.leb_gt in E. exact E.
  - intros H. inversion H; subst.
    split; [reflexivity |]. split; [reflexivity |].
    intros y Hy. rewrite Ex in Hy. discriminate.
Qed.

(** X4.  A payload that license verification returns has passed both
    expiry checks: the token decodes to license claims carrying it, the
    clock in whole seconds was still before the [exp] of the claims, if
    any, and the second reading of the clock was not after the payload's
    expiresAt, if any. *)
Theorem verified_license_has_not_expired
    (jws_decode : string -> option Claims) (token : string) (w : World)
    (p : LicensePayload) :
  eval (verifyLicenseToken jws_decode token) w = Ok p ->
  exists c,
    jws_decode token = Some c
    /\ payload c = License p
    /\ (forall x, exp c = Some x -> clock w (clock_reads w) / 1000 < x)
    /\ (forall e, expiresAt p = Some e -> clock w (S (clock_reads w)) <= e).
Proof.
  unfold eval, verifyLicenseToken, bind at 1.
  destruct (jwt_verify jws_decode token w) as [[c | err] w'] eqn:E;
    simpl; [| discriminate].
  destruct (jwt_verify_ok jws_decode token w c w' E) as (Hd & -> & Hexp).
  intros H. exists c. split; [exact Hd |].
  unfold type in H.
  destruct (payload c) as [t | l]; simpl in H; [discriminate |].
  destruct l as [n em pl pa [ex |]]; simpl in H.
  - unfold bind, Date_now in H. simpl in H.
    destruct (ex <? clock w (S (clock_reads w))) eqn:Ec; simpl in H;
      [discriminate |].
    inversion H; subst. split; [reflexivity |]. split; [exact Hexp |].
    intros e He. simpl in He. injection He as <-.
    apply Z.ltb_ge in Ec. exact Ec.
  - inversion H; subst. split; [reflexivity |]. split; [exact Hexp |].
    intros e He. discriminate He.
Qed.

(** The annual license of [sub_1] presented on day 100 of its year. *)
Lemma verified_license_has_not_expired_witness :
  let w := world_at empty_store (example_bought + 100 * day_ms) in
  eval (verifyLicenseToken Codec.decode example_annual_token) w
  = Ok example_annual
  /\ exists c,
      Codec.decode example_annual_token = Some c
      /\ payload c = License example_annual
      /\ (forall x, exp c = Some x -> clock w (clock_reads w) / 1000 < x)
      /\ (forall e, expiresAt example_annual = Some e ->
                    clock w (S (clock_reads w)) <= e).
Proof.
  intros w.
  assert (H : eval (verifyLicenseToken Codec.decode example_annual_token) w
              = Ok example_annual) by (vm_compute; reflexivity).
  split; [exact H |].
  exact (verified_license_has_not_expired Codec.decode example_annual_token
           w example_annual H).
Defined.

Section DatedLicenses.

Variable jws_encode : Claims -> string.
Variable jws_decode : string -> option Claims.
Hypothesis codec : codec_law jws_encode jws_decode.

(** Verifying a token signed for a payload with an expiresAt. *)
Lemma verifyLicenseToken_dated p e issued d w :
  expiresAt p = Some e ->
  verifyLicenseToken jws_decode
    (jwt_sign jws_encode (License p) issued (Some d)) w
  = if issued + d <=? clock w (clock_reads w) / 1000
    then (Throw TokenExpiredError, advance_clock 1 w)
    else if e <? clock w (S (clock_reads w))
         then (Throw (Err "License has expired"), advance_clock 2 w)
         else (Ok p, advance_clock 2 w).
Proof.
  intros He.
  unfold verifyLicenseToken, jwt_verify, jwt_sign, bind, Date_now.
  rewrite codec. simpl.
  destruct (issued + d <=? clock w (clock_reads w) / 1000);
    [reflexivity |].
  simpl. rewrite He. simpl.
  destruct (e <? clock w (S (clock_reads w))); [reflexivity |].
  destruct p as [n em pl pa ex]. simpl in He. subst ex. reflexivity.
Qed.

(** Verifying as a license what was signed as a trial, and as a trial
    what was signed as a license. *)
Lemma verifyLicenseToken_of_trial p issued d w :
  verifyLicenseToken jws_decode
    (jwt_sign jws_encode (Trial p) issued (Some d)) w
  = (if issued + d <=? clock w (clock_reads w) / 1000
     then Throw TokenExpiredError
     else Throw (Err "Invalid license token type"),
     advance_clock 1 w).
Proof.
  unfold verifyLicenseToken, jwt_verify, jwt_sign, bind, Date_now.
  rewrite codec. simpl.
  destruct (issued + d <=? clock w (clock_reads w) / 1000); reflexivity.
Qed.

Lemma verifyTrialToken_of_license p issued expiresIn w :
  exists err,
    verifyTrialToken jws_decode
      (jwt_sign jws_encode (License p) issued expiresIn) w
    = (Throw err, advance_clock 1 w)
    /\ (err = TokenExpiredError \/ err = Err "Invalid trial token type").
Proof.
  unfold verifyTrialToken, jwt_verify, jwt_sign, bind, Date_now.
  rewrite codec. simpl.
  destruct expiresIn as [d |]; simpl.
  - destruct (issued + d <=? clock w (clock_reads w) / 1000);
      eexists; split; try reflexivity; auto.
  - eexists; split; try reflexivity; auto.
Qed.

End DatedLicenses.

(** X5.  Signing a license with an expiresAt reads the clock twice and
    returns a token; verifying that token answers by the two expiry
    checks alone: TokenExpiredError once the clock in whole seconds has
    reached the [exp] of the token, else [License has expired] when the
    second reading is after expiresAt, else exactly the signed payload. *)
Theorem dated_license_roundtrip
    (jws_encode : Claims -> string) (jws_decode : string -> option Claims)
    (p : LicensePayload) (e : Z) (w w' : World) :
  codec_law jws_encode jws_decode ->
  expiresAt p = Some e ->
  let issued := clock w (clock_reads w) / 1000 in
  let expiresIn := (e - clock w (S (clock_reads w))) / 1000 in
  exists token,
    signLicenseToken jws_encode p w = (Ok token, advance_clock 2 w)
    /\ verifyLicenseToken jws_decode token w'
       = if issued + expiresIn <=? clock w' (clock_reads w') / 1000
         then (Throw TokenExpiredError, advance_clock 1 w')
         else if e <? clock w' (S (clock_reads w'))
              then (Throw (Err "License has expired"), advance_clock 2 w')
              else (Ok p, advance_clock 2 w').
Proof.
  intros codec He issued expiresIn. eexists.
  split; [apply (signLicenseToken_dated jws_encode p e w He) |].
  apply (verifyLicenseToken_dated jws_encode jws_decode codec p e); exact He.
Qed.

Lemma dated_license_roundtrip_witness :
  let w := world_at empty_store example_bought in
  let w' := world_at empty_store (example_bought + 100 * day_ms) in
  codec_law Codec.encode Codec.decode
  /\ expiresAt example_annual = Some (example_bought + year_ms)
  /\ exists token,
      signLicenseToken Codec.encode example_annual w
      = (Ok token, advance_clock 2 w)
      /\ verifyLicenseToken Codec.decode token w'
         = (Ok example_annual, advance_clock 2 w').
Proof.
  intros w w'.
  split; [exact CodecFacts.decode_encode |]. split; [reflexivity |].
  exact (dated_license_roundtrip Codec.encode Codec.decode example_annual
           (example_bought + year_ms) w w' CodecFacts.decode_encode eq_refl).
Defined.

(** X6.  A license whose expiresAt is already past when it is signed is
    never accepted: with a clock that does not run backwards, every later
    verification of the signed token fails with TokenExpiredError. *)
Theorem license_signed_after_its_expiry_is_rejected
    (jws_encode : Claims -> string) (jws_decode : string -> option Claims)
    (p : LicensePayload) (e : Z) (w w' : World) :
  codec_law jws_encode jws_decode ->
  expiresAt p = Some e ->
  e < clock w (S (clock_reads w)) ->
  clock w (clock_reads w) <= clock w' (clock_reads w') ->
  exists token,
    signLicenseToken jws_encode p w = (Ok token, advance_clock 2 w)
    /\ verifyLicenseToken jws_decode token w'
       = (Throw TokenExpiredError, advance_clock 1 w').
Proof.
  intros codec He Hpast Hclock. eexists.
  split; [apply (signLicenseToken_dated jws_encode p e w He) |].
  rewrite (verifyLicenseToken_dated jws_encode jws_decode codec p e _ _ w' He).
  assert (Hd : (e - clock w (S (clock_reads w))) / 1000 <= -1).
  { apply Z.lt_succ_r. apply Z.div_lt_upper_bound; lia. }
  assert (Hm : clock w (clock_reads w) / 1000
               <= clock w' (clock_reads w') / 1000)
    by (apply Z.div_le_mono; lia).
  assert (Hle : (clock w (clock_reads w) / 1000
                 + (e - clock w (S (clock_reads w))) / 1000
                 <=? clock w' (clock_reads w') / 1000) = true)
    by (apply Z.leb_le; lia).
  rewrite Hle. reflexivity.
Qed.

(** A license that ran out a day before it is signed, checked in the same
    millisecond. *)
Lemma license_signed_after_its_expiry_is_rejected_witness :
  let p := {| name := "Ada"; email := "ada@example.com";
              plan := "pro-annual"; purchasedAt := 0;
              expiresAt := Some (example_bought - day_ms) |} in
  let w := world_at empty_store example_bought in
  codec_law Codec.encode Codec.decode
  /\ expiresAt p = Some (example_bought - day_ms)
  /\ example_bought - day_ms < clock w (S (clock_reads w))
  /\ clock w (clock_reads w) <= clock w (clock_reads w)
  /\ exists token,
      signLicenseToken Codec.encode p w = (Ok token, advance_clock 2 w)
      /\ verifyLicenseToken Codec.decode token w
         = (Throw TokenExpiredError, advance_clock 1 w).
Proof.
  intros p w.
  split; [exact CodecFacts.decode_encode |]. split; [reflexivity |].
  split; [reflexivity |]. split; [reflexivity |].
  exact (license_signed_after_its_expiry_is_rejected Codec.encode Codec.decode
           p (example_bought - day_ms) w w CodecFacts.decode_encode eq_refl
           eq_refl (Z.le_refl _)).
Defined.

Lemma signLicenseToken_exp_bound
    (jws_encode : Claims -> string) (p : LicensePayload) (e : Z)
    (w : World) :
  expiresAt p = Some e ->
  clock w (clock_reads w) <= clock w (S (clock_reads w)) ->
  exists c x,
    signLicenseToken jws_encode p w = (Ok (jws_encode c), advance_clock 2 w)
    /\ payload c = License p
    /\ exp c = Some x
    /\ x * 1000 <= e
    /\ e - (clock w (S (clock_reads w)) - clock w (clock_reads w)) - 2000
       < x * 1000.
Proof.
  intros He Hclock.
  rewrite (signLicenseToken_dated jws_encode p e w He).
  unfold jwt_sign. eexists _, _.
  split; [reflexivity |]. split; [reflexivity |].
  split; [reflexivity |].
  set (t0 := clock w (clock_reads w)) in *.
  set (t1 := clock w (S (clock_reads w))) in *.
  pose proof (Z.div_mod t0 1000 ltac:(lia)).
  pose proof (Z.mod_pos_bound t0 1000 ltac:(lia)).
  pose proof (Z.div_mod (e - t1) 1000 ltac:(lia)).
  pose proof (Z.mod_pos_bound (e - t1) 1000 ltac:(lia)).
  lia.
Qed.

(** X7.  The expiry the codec puts on a signed license follows the
    payload: when the clock does not run backwards between the two
    readings of signing, the [exp] of the claims, in milliseconds, is
    never after expiresAt, and less than two seconds plus the time
    between the readings before it. *)
Theorem signed_license_expires_with_its_payload
    (jws_encode : Claims -> string) (p : LicensePayload) (e : Z)
    (w : World) :
  expiresAt p = Some e ->
  clock w (clock_reads w) <= clock w (S (clock_reads w)) ->
  exists c x,
    signLicenseToken jws_encode p w = (Ok (jws_encode c), advance_clock 2 w)
    /\ payload c = License p
    /\ exp c = Some x
    /\ x * 1000 <= e
    /\ e - (clock w (S (clock_reads w)) - clock w (clock_reads w)) - 2000
       < x * 1000.
Proof. apply signLicenseToken_exp_bound. Qed.

Lemma signed_license_expires_with_its_payload_witness :
  let w := world_at empty_store (example_bought + 1) in
  expiresAt example_annual = Some (example_bought + year_ms)
  /\ clock w (clock_reads w) <= clock w (S (clock_reads w))
  /\ exists c x,
      signLicenseToken Codec.encode example_annual w
      = (Ok (Codec.encode c), advance_clock 2 w)
      /\ payload c = License example_annual
      /\ exp c = Some x
      /\ x * 1000 <= example_bought + year_ms
      /\ example_bought + year_ms
         - (clock w (S (clock_reads w)) - clock w (clock_reads w)) - 2000
         < x * 1000.
Proof.
  intros w. split; [reflexivity |]. split; [apply Z.le_refl |].
  exact (signed_license_expires_with_its_payload Codec.encode example_annual
           (example_bought + year_ms) w eq_refl (Z.le_refl _)).
Defined.

(** X8.  The two kinds of token are never taken for one another: a token
    signed by signTrialToken is rejected by verifyLicenseToken at every
    time, with [Invalid license token type] while its seven days run and
    TokenExpiredError after, and a token signed by signLicenseToken is
    rejected by verifyTrialToken at every time. *)
Theorem tokens_are_not_interchangeable
    (jws_encode : Claims -> string) (jws_decode : string -> option Claims)
    (t : TrialPayload) (p : LicensePayload) (w w' : World) :
  codec_law jws_encode jws_decode ->
  (exists token,
      signTrialToken jws_encode t w = (Ok token, advance_clock 1 w)
      /\ verifyLicenseToken jws_decode token w'
         = (if clock w (clock_reads w) / 1000 + seven_days
               <=? clock w' (clock_reads w') / 1000
            then Throw TokenExpiredError
            else Throw (Err "Invalid license token type"),
            advance_clock 1 w'))
  /\ (exists token n err,
        signLicenseToken jws_encode p w = (Ok token, advance_clock n w)
        /\ verifyTrialToken jws_decode token w'
           = (Throw err, advance_clock 1 w')
        /\ (err = TokenExpiredError
            \/ err = Err "Invalid trial token type")).
Proof.
  intros codec. split.
  - eexists. split; [reflexivity |].
    apply (verifyLicenseToken_of_trial jws_encode jws_decode codec).
  - destruct (expiresAt p) as [e |] eqn:He.
    + destruct (verifyTrialToken_of_license jws_encode jws_decode codec p
                  (clock w (clock_reads w) / 1000)
                  (Some ((e - clock w (S (clock_reads w))) / 1000)) w')
        as (err & Ev & Herr).
      eexists _, 2%nat, err.
      split; [apply (signLicenseToken_dated jws_encode p e w He) |].
      split; assumption.
    + destruct (verifyTrialToken_of_license jws_encode jws_decode codec p
                  (clock w (clock_reads w) / 1000) None w')
        as (err & Ev & Herr).
      eexists _, 1%nat, err.
      split; [apply (signLicenseToken_lifetime jws_encode p w He) |].
      split; assumption.
Qed.

Lemma tokens_are_not_interchangeable_witness :
  let w := world_at empty_store example_bought in
  codec_law Codec.encode Codec.decode
  /\ (exists token,
        signTrialToken Codec.encode example_trial w
        = (Ok token, advance_clock 1 w)
        /\ verifyLicenseToken Codec.decode token w
           = (Throw (Err "Invalid license token type"), advance_clock 1 w))
  /\ (exists token n err,
        signLicenseToken Codec.encode example_lifetime w
        = (Ok token, advance_clock n w)
        /\ verifyTrialToken Codec.decode token w
           = (Throw err, advance_clock 1 w)
        /\ (err = TokenExpiredError
            \/ err = Err "Invalid trial token type")).
Proof.
  intros w. split; [exact CodecFacts.decode_encode |].
  exact (tokens_are_not_interchangeable Codec.encode Codec.decode
           example_trial example_lifetime w w CodecFacts.decode_encode).
Defined.

(** ** The store *)

Lemma index_insert_lookup v key index id :
  present v = Some id -> index_insert v key index !! id = Some key.
Proof. intros H. unfold index_insert. rewrite H. apply lookup_insert_eq. Qed.

Lemma index_insert_other v key index id :
  present v <> Some id -> index_insert v key index !! id = index !! id.
Proof.
  intros H. unfold index_insert.
  destruct (present v) as [id' |]; [| reflexivity].
  apply lookup_insert_ne. congruence.
Qed.

Lemma truthy_string_ne key : key <> "" -> truthy_string key = true.
Proof. destruct key; [congruence | reflexivity]. Qed.

(** X9.  What storeLicense stores is found again: by its key always,
    and, when the key is not the empty string, through each index whose
    id the metadata carries as a truthy value.  Under the empty key the
    record is stored but no index lookup returns it.  Records under other
    keys and index entries of other ids are as before. *)
Theorem stored_license_is_found
    (key token : string) (lic : LicensePayload) (meta : Metadata)
    (w : World) :
  let r := {| fullToken := token; license := lic; metadata := meta |} in
  let w1 := exec (storeLicense key token lic meta) w in
  getLicenseByKey key w1 = (Ok (Some r), w1)
  /\ (forall id,
        present (paymentIntentId meta) = Some id ->
        getLicenseByPaymentIntent id w1
        = (Ok (if truthy_string key then Some r else None), w1))
  /\ (forall id,
        present (subscriptionId meta) = Some id ->
        getLicenseBySubscription id w1
        = (Ok (if truthy_string key then Some r else None), w1))
  /\ (forall k, k <> key ->
        licenses (store w1) !! k = licenses (store w) !! k)
  /\ (forall id,
        present (paymentIntentId meta) <> Some id ->
        paymentIntentIndex (store w1) !! id
        = paymentIntentIndex (store w) !! id)
  /\ (forall id,
        present (subscriptionId meta) <> Some id ->
        subscriptionIndex (store w1) !! id
        = subscriptionIndex (store w) !! id).
Proof.
  intros r w1. subst w1. unfold exec.
  rewrite storeLicense_effect. simpl.
  split; [| split; [| split; [| split; [| split]]]].
  - unfold getLicenseByKey, bind, get_store, ret. simpl.
    rewrite lookup_insert_eq. reflexivity.
  - intros id Hid. rewrite getLicenseByPaymentIntent_eq. simpl.
    rewrite (index_insert_lookup _ _ _ _ Hid). simpl.
    destruct (truthy_string key); [rewrite lookup_insert_eq |]; reflexivity.
  - intros id Hid. rewrite getLicenseBySubscription_eq. simpl.
    rewrite (index_insert_lookup _ _ _ _ Hid). simpl.
    destruct (truthy_string key); [rewrite lookup_insert_eq |]; reflexivity.
  - intros k Hk. apply lookup_insert_ne. congruence.
  - intros id Hid. apply index_insert_other. exact Hid.
  - intros id Hid. apply index_insert_other. exact Hid.
Qed.

Lemma updateLicense_effect k token lic existing w :
  licenses (store w) !! k = Some existing ->
  updateLicense (Val k) token lic w
  = (Ok tt,
     with_store
       {| licenses := <[k := {| fullToken := token; license := lic;
                                metadata := metadata existing |}]>
                        (licenses (store w));
          paymentIntentIndex := paymentIntentIndex (store w);
          subscriptionIndex := subscriptionIndex (store w) |} w).
Proof.
  intros H. unfold updateLicense, bind, get_store, licenses_get. simpl.
  rewrite H. reflexivity.
Qed.

Lemma updateLicense_missing k token lic w :
  licenses (store w) !! k = None ->
  updateLicense (Val k) token lic w = (Ok tt, w).
Proof.
  intros H. unfold updateLicense, bind, get_store, licenses_get. simpl.
  rewrite H. reflexivity.
Qed.

(** X10.  updateLicense under the key a license was stored with replaces
    the token and the payload in place and keeps the metadata and both
    indexes, so the key and every id the metadata carries then lead to
    the new token; under a key that holds no record it changes nothing. *)
Theorem update_after_store_is_found
    (key token token' : string) (lic lic' : LicensePayload)
    (meta : Metadata) (w : World) :
  let r' := {| fullToken := token'; license := lic'; metadata := meta |} in
  let w1 := exec (storeLicense key token lic meta) w in
  let w2 := exec (updateLicense (Val key) token' lic') w1 in
  getLicenseByKey key w2 = (Ok (Some r'), w2)
  /\ (key <> "" ->
      (forall id, present (paymentIntentId meta) = Some id ->
                  getLicenseByPaymentIntent id w2 = (Ok (Some r'), w2))
      /\ (forall id, present (subscriptionId meta) = Some id ->
                     getLicenseBySubscription id w2 = (Ok (Some r'), w2)))
  /\ paymentIntentIndex (store w2) = paymentIntentIndex (store w1)
  /\ subscriptionIndex (store w2) = subscriptionIndex (store w1)
  /\ (forall k, licenses (store w) !! k = None ->
                updateLicense (Val k) token' lic' w = (Ok tt, w)).
Proof.
  intros r' w1 w2.
  assert (E1 : w1 = with_store (stored key token lic meta (store w)) w)
    by (subst w1; unfold exec; rewrite storeLicense_effect; reflexivity).
  assert (E2 : w2
               = with_store
                   {| licenses := <[key := r']> (licenses (store w1));
                      paymentIntentIndex := paymentIntentIndex (store w1);
                      subscriptionIndex := subscriptionIndex (store w1) |}
                   w1).
  { subst w2. unfold exec.
    rewrite (updateLicense_effect key token' lic'
               {| fullToken := token; license := lic; metadata := meta |});
      [reflexivity |].
    rewrite E1. simpl. apply lookup_insert_eq. }
  clearbody w1 w2. subst w2 w1. simpl.
  split; [| split; [| split; [| split]]].
  - unfold getLicenseByKey, bind, get_store, ret. simpl.
    rewrite lookup_insert_eq. reflexivity.
  - intros Hk. apply truthy_string_ne in Hk. split.
    + intros id Hid. rewrite getLicenseByPaymentIntent_eq. simpl.
      rewrite (index_insert_lookup _ _ _ _ Hid). simpl. rewrite Hk.
      rewrite lookup_insert_eq. reflexivity.
    + intros id Hid. rewrite getLicenseBySubscription_eq. simpl.
      rewrite (index_insert_lookup _ _ _ _ Hid). simpl. rewrite Hk.
      rewrite lookup_insert_eq. reflexivity.
  - reflexivity.
  - reflexivity.
  - intros k Hk. apply updateLicense_missing. exact Hk.
Qed.

Lemma index_insert_twice v1 v2 key index id :
  present v1 = Some id ->
  index_insert v2 key (index_insert v1 key index) !! id = Some key.
Proof.
  intros H.
  destruct (decide (present v2 = Some id)) as [H2 | H2].
  - apply index_insert_lookup. exact H2.
  - rewrite index_insert_other by exact H2.
    apply index_insert_lookup. exact H.
Qed.

(** X11.  The last write wins, and the indexes are not told: when a
    second license is stored under the key of a first, the first is gone,
    and the payment-intent and subscription ids of the first now lead to
    the second license. *)
Theorem overwritten_key_answers_for_old_ids
    (key token1 token2 : string) (lic1 lic2 : LicensePayload)
    (meta1 meta2 : Metadata) (w : World) :
  key <> "" ->
  let r2 := {| fullToken := token2; license := lic2; metadata := meta2 |} in
  let w2 := exec (storeLicense key token2 lic2 meta2)
              (exec (storeLicense key token1 lic1 meta1) w) in
  getLicenseByKey key w2 = (Ok (Some r2), w2)
  /\ (forall id, present (paymentIntentId meta1) = Some id ->
                 getLicenseByPaymentIntent id w2 = (Ok (Some r2), w2))
  /\ (forall id, present (subscriptionId meta1) = Some id ->
                 getLicenseBySubscription id w2 = (Ok (Some r2), w2)).
Proof.
  intros Hk r2 w2. apply truthy_string_ne in Hk.
  assert (E : w2 = with_store
                     (stored key token2 lic2 meta2
                        (stored key token1 lic1 meta1 (store w))) w).
  { subst w2. unfold exec. rewrite !storeLicense_effect. reflexivity. }
  clearbody w2. subst w2.
  split; [| split].
  - unfold getLicenseByKey, bind, get_store, ret. simpl.
    rewrite lookup_insert_eq. reflexivity.
  - intros id Hid. rewrite getLicenseByPaymentIntent_eq. simpl.
    rewrite (index_insert_twice _ _ _ _ _ Hid). simpl. rewrite Hk.
    rewrite lookup_insert_eq. reflexivity.
  - intros id Hid. rewrite getLicenseBySubscription_eq. simpl.
    rewrite (index_insert_twice _ _ _ _ _ Hid). simpl. rewrite Hk.
    rewrite lookup_insert_eq. reflexivity.
Qed.

(** Two payments whose licenses draw the same key: the first payment
    intent then redeems the license of the second. *)
Lemma overwritten_key_answers_for_old_ids_witness :
  let meta1 := {| paymentIntentId := Val "pi_1";
                  subscriptionId := Undefined; isDevelopment := Undefined |} in
  let meta2 := {| paymentIntentId := Val "pi_2";
                  subscriptionId := Undefined; isDevelopment := Undefined |} in
  let r2 := {| fullToken := "token2"; license := example_annual;
               metadata := meta2 |} in
  let w2 := exec (storeLicense example_annual_key "token2" example_annual
                    meta2)
              (exec (storeLicense example_annual_key "token1"
                       example_lifetime meta1)
                 (world_at empty_store 0)) in
  example_annual_key <> ""
  /\ getLicenseByKey example_annual_key w2 = (Ok (Some r2), w2)
  /\ (forall id, present (paymentIntentId meta1) = Some id ->
                 getLicenseByPaymentIntent id w2 = (Ok (Some r2), w2))
  /\ (forall id, present (subscriptionId meta1) = Some id ->
                 getLicenseBySubscription id w2 = (Ok (Some r2), w2)).
Proof.
  intros meta1 meta2 r2 w2.
  split; [discriminate |].
  exact (overwritten_key_answers_for_old_ids example_annual_key "token1"
           "token2" example_lifetime example_annual meta1 meta2
           (world_at empty_store 0) ltac:(discriminate)).
Defined.

(** ** Invoice paid *)

Lemma present_truthy v id : present v = Some id -> v = Val id /\ id <> "".
Proof.
  destruct v as [| | s]; simpl; try discriminate.
  destruct s; simpl; [discriminate |].
  intros H. injection H as <-. split; [reflexivity | discriminate].
Qed.

Section InvoicePaid.

Variable jws_encode : Claims -> string.

Lemma handleInvoicePaymentSucceeded_no_subscription invoice w :
  present (inv_subscription invoice) = None ->
  handleInvoicePaymentSucceeded jws_encode invoice w = (Ok tt, w).
Proof.
  intros H. unfold handleInvoicePaymentSucceeded. rewrite H. reflexivity.
Qed.

Lemma handleInvoicePaymentSucceeded_known invoice id r w :
  present (inv_subscription invoice) = Some id ->
  through_index (store w) (subscriptionIndex (store w) !! id) = Some r ->
  handleInvoicePaymentSucceeded jws_encode invoice w = (Ok tt, w).
Proof.
  intros H Hr. unfold handleInvoicePaymentSucceeded. rewrite H.
  unfold bind. rewrite getLicenseBySubscription_eq, Hr. reflexivity.
Qed.

(** The first invoice of a subscription signs one annual license, good
    for 365 days from the second reading of the clock, and stores it
    under a fresh key with the subscription id. *)
Lemma handleInvoicePaymentSucceeded_unknown invoice id w :
  present (inv_subscription invoice) = Some id ->
  through_index (store w) (subscriptionIndex (store w) !! id) = None ->
  exists key token,
    handleInvoicePaymentSucceeded jws_encode invoice w
    = (Ok tt,
       with_store
         (stored key token
            {| name := or_default (inv_customer_name invoice) "Licensed User";
               email := or_default (inv_customer_email invoice) "";
               plan := "pro-annual";
               purchasedAt := clock w (clock_reads w);
               expiresAt := Some (clock w (S (clock_reads w)) + year_ms) |}
            {| paymentIntentId := Undefined; subscriptionId := Val id;
               isDevelopment := Undefined |}
            (store w))
         (advance_entropy 20 (advance_clock 4 w)))
    /\ matches_key_pattern 5 key = true.
Proof.
  intros H Hnone. unfold handleInvoicePaymentSucceeded. rewrite H.
  unfold bind at 1. rewrite getLicenseBySubscription_eq, Hnone.
  unfold bind at 1. unfold Date_now at 1.
  unfold bind at 1. unfold Date_now at 1.
  unfold bind at 1.
  rewrite (signLicenseToken_dated jws_encode _
             (clock w (S (clock_reads w)) + year_ms)) by reflexivity.
  unfold bind at 1.
  match goal with
  | |- context [generateLicenseKey ?w0] =>
      destruct (generateLicenseKey_spec w0)
        as (s1 & s2 & s3 & s4 & s5 & E & K1 & K2 & K3 & K4 & K5)
  end.
  rewrite E, storeLicense_effect.
  eexists _, _. split; [reflexivity |].
  apply key_pattern_of_groups; assumption.
Qed.

End InvoicePaid.

Lemma key_pattern_truthy n key :
  matches_key_pattern n key = true -> truthy_string key = true.
Proof. destruct key; [discriminate | reflexivity]. Qed.

(** X12.  An invoice without a subscription changes nothing.  For an
    invoice of a subscription, after one delivery the subscription index
    resolves the id to a record, so a second delivery returns at once and
    leaves the world as the first left it; when the id was unknown, the
    first delivery wrote exactly one record and one index entry: an
    annual license bought at the first reading of the clock and expiring
    365 days after the second. *)
Theorem invoice_paid_twice_stores_once
    (jws_encode : Claims -> string) (invoice : Invoice) (w : World) :
  (present (inv_subscription invoice) = None ->
   handleInvoicePaymentSucceeded jws_encode invoice w = (Ok tt, w))
  /\ forall id,
      present (inv_subscription invoice) = Some id ->
      let once := exec (handleInvoicePaymentSucceeded jws_encode invoice) w in
      (exists r, getLicenseBySubscription id once = (Ok (Some r), once))
      /\ handleInvoicePaymentSucceeded jws_encode invoice once
         = (Ok tt, once)
      /\ (getLicenseBySubscription id w = (Ok None, w) ->
          exists key r,
            licenses (store once) = <[key := r]> (licenses (store w))
            /\ subscriptionIndex (store once)
               = <[id := key]> (subscriptionIndex (store w))
            /\ paymentIntentIndex (store once) = paymentIntentIndex (store w)
            /\ subscriptionId (metadata r) = Val id
            /\ plan (license r) = "pro-annual"
            /\ purchasedAt (license r) = clock w (clock_reads w)
            /\ expiresAt (license r)
               = Some (clock w (S (clock_reads w)) + year_ms)).
Proof.
  split; [apply handleInvoicePaymentSucceeded_no_subscription |].
  intros id Hid once.
  destruct (present_truthy _ _ Hid) as [_ Hne].
  assert (Hafter : exists r,
             through_index (store once) (subscriptionIndex (store once) !! id)
             = Some r).
  { destruct (through_index (store w) (subscriptionIndex (store w) !! id))
      as [r |] eqn:E.
    - exists r. subst once. unfold exec.
      rewrite (handleInvoicePaymentSucceeded_known jws_encode invoice id r w
                 Hid E).
      exact E.
    - destruct (handleInvoicePaymentSucceeded_unknown jws_encode invoice id w
                  Hid E) as (key & token & Eh & Hk).
      subst once. unfold exec. rewrite Eh. simpl.
      unfold index_insert. rewrite (present_Val _ Hne). simpl.
      rewrite lookup_insert_eq. simpl.
      rewrite (key_pattern_truthy _ _ Hk), lookup_insert_eq.
      eexists. reflexivity. }
  destruct Hafter as [r Hr].
  split; [| split].
  - exists r. rewrite getLicenseBySubscription_eq, Hr. reflexivity.
  - exact (handleInvoicePaymentSucceeded_known jws_encode invoice id r once
             Hid Hr).
  - rewrite getLicenseBySubscription_eq. intros Hnone.
    assert (Hnone' : through_index (store w)
                       (subscriptionIndex (store w) !! id) = None)
      by congruence.
    destruct (handleInvoicePaymentSucceeded_unknown jws_encode invoice id w
                Hid Hnone') as (key & token & Eh & _).
    subst once. unfold exec. rewrite Eh. simpl.
    unfold index_insert. rewrite (present_Val _ Hne). simpl.
    eexists key, _. repeat split.
Qed.

(** ** Checking a payment with the processor *)

Section PaymentCheck.

Variable paymentIntents_retrieve : string -> option PaymentIntent.
Variable subscriptions_retrieve : string -> option Subscription.
Variable customers_retrieve : string -> option Customer.

Lemma verifyStripePayment_charge_confirmed id w :
  charge_confirmed paymentIntents_retrieve customers_retrieve id ->
  exists info,
    verifyStripePayment paymentIntents_retrieve subscriptions_retrieve
      customers_retrieve "payment_intent" id w
    = (Ok {| success := true; customerInfo := Val info |}, w).
Proof.
  intros (o & Ho & Hs & Hc).
  unfold verifyStripePayment, try_catch, bind, await.
  simpl String.eqb. cbv iota. rewrite Ho. simpl. rewrite Hs. simpl.
  destruct (present (pi_customer o)) as [c |] eqn:Ec; simpl.
  - destruct (customers_retrieve c) as [cu |] eqn:Ecu; simpl.
    + eexists. reflexivity.
    + exfalso. exact (Hc c Ec Ecu).
  - eexists. reflexivity.
Qed.

Lemma verifyStripePayment_subscription_confirmed id w :
  subscription_confirmed subscriptions_retrieve customers_retrieve id ->
  exists info,
    verifyStripePayment paymentIntents_retrieve subscriptions_retrieve
      customers_retrieve "subscription" id w
    = (Ok {| success := true; customerInfo := Val info |}, w).
Proof.
  intros (o & Ho & Hs & Hc).
  unfold verifyStripePayment, try_catch, bind, await.
  simpl String.eqb. cbv iota. rewrite Ho. simpl.
  assert (Hb : (String.eqb (sub_status o) "active"
                || String.eqb (sub_status o) "trialing") = true).
  { destruct Hs as [-> | ->]; reflexivity. }
  rewrite Hb. simpl.
  destruct (present (sub_customer o)) as [c |] eqn:Ec; simpl.
  - destruct (customers_retrieve c) as [cu |] eqn:Ecu; simpl.
    + eexists. reflexivity.
    + exfalso. exact (Hc c Ec Ecu).
  - eexists. reflexivity.
Qed.

Lemma verifyStripePayment_other_type type id w :
  type <> "payment_intent" -> type <> "subscription" ->
  verifyStripePayment paymentIntents_retrieve subscriptions_retrieve
    customers_retrieve type id w
  = (Ok {| success := false; customerInfo := Val no_customerInfo |}, w).
Proof.
  intros H1 H2. apply String.eqb_neq in H1, H2.
  unfold verifyStripePayment, try_catch. rewrite H1, H2. reflexivity.
Qed.

End PaymentCheck.

(** X13.  verifyStripePayment never throws and leaves the world as it
    is, whatever the processor answers; it reports success exactly when
    the payment intent is retrieved with the status [succeeded], or the
    subscription with [active] or [trialing], and the customer of the
    payment, if it names one, is retrieved too.  A failure of any of the
    calls and any other type are reported as no success. *)
Theorem verifyStripePayment_reports_confirmation
    (paymentIntents_retrieve : string -> option PaymentIntent)
    (subscriptions_retrieve : string -> option Subscription)
    (customers_retrieve : string -> option Customer)
    (type id : string) (w : World) :
  exists v,
    verifyStripePayment paymentIntents_retrieve subscriptions_retrieve
      customers_retrieve type id w = (Ok v, w)
    /\ (success v = true <->
        (type = "payment_intent"
         /\ charge_confirmed paymentIntents_retrieve customers_retrieve id)
        \/ (type = "subscription"
            /\ subscription_confirmed subscriptions_retrieve
                 customers_retrieve id)).
Proof.
  destruct (decide (type = "payment_intent")) as [-> | H1].
  - destruct (verifyStripePayment_payment_intent paymentIntents_retrieve
                subscriptions_retrieve customers_retrieve id w)
      as (v & E & Hv).
    exists v. split; [exact E |]. split.
    + intros Hs. left. auto.
    + intros [[_ Hc] | [Habs _]]; [| discriminate Habs].
      destruct (verifyStripePayment_charge_confirmed paymentIntents_retrieve
                  subscriptions_retrieve customers_retrieve id w Hc)
        as (info & E').
      rewrite E in E'. injection E' as ->. reflexivity.
  - destruct (decide (type = "subscription")) as [-> | H2].
    + destruct (verifyStripePayment_subscription paymentIntents_retrieve
                  subscriptions_retrieve customers_retrieve id w)
        as (v & E & Hv).
      exists v. split; [exact E |]. split.
      * intros Hs. right. auto.
      * intros [[Habs _] | [_ Hc]]; [discriminate Habs |].
        destruct (verifyStripePayment_subscription_confirmed
                    paymentIntents_retrieve subscriptions_retrieve
                    customers_retrieve id w Hc) as (info & E').
        rewrite E in E'. injection E' as ->. reflexivity.
    + eexists. split.
      * apply verifyStripePayment_other_type; assumption.
      * simpl. split; [discriminate |].
        intros [[Habs _] | [Habs _]]; contradiction.
Qed.

(** ** Running a handler step by step *)

Lemma bind_ok {A B} (m : M A) (k : A -> M B) w a w1 :
  m w = (Ok a, w1) -> bind m k w = k a w1.
Proof. intros H. unfold bind. rewrite H. reflexivity. Qed.

Lemma bind_throw {A B} (m : M A) (k : A -> M B) w e w1 :
  m w = (Throw e, w1) -> bind m k w = (Throw e, w1).
Proof. intros H. unfold bind. rewrite H. reflexivity. Qed.

Lemma try_catch_ok {A} (m : M A) (h : Error -> M A) w a w1 :
  m w = (Ok a, w1) -> try_catch m h w = (Ok a, w1).
Proof. intros H. unfold try_catch. rewrite H. reflexivity. Qed.

Lemma try_catch_throw {A} (m : M A) (h : Error -> M A) w e w1 :
  m w = (Throw e, w1) -> try_catch m h w = h e w1.
Proof. intros H. unfold try_catch. rewrite H. reflexivity. Qed.

(** ** Issuance after a confirmed payment *)

Section ConfirmedIssuance.

Variable jws_encode : Claims -> string.
Variable paymentIntents_retrieve : string -> option PaymentIntent.
Variable subscriptions_retrieve : string -> option Subscription.
Variable customers_retrieve : string -> option Customer.

Lemma verify_payment_complete plan paymentIntentId subscriptionId w :
  payment_confirmed paymentIntents_retrieve subscriptions_retrieve
    customers_retrieve plan paymentIntentId subscriptionId ->
  exists info,
    verify_payment paymentIntents_retrieve subscriptions_retrieve
      customers_retrieve plan paymentIntentId subscriptionId w
    = (Ok (true, info), w).
Proof.
  intros [[-> (id & Hid & Hc)] | [-> (id & Hid & Hc)]];
    unfold verify_payment.
  - change (plan_is (Val "lifetime") "lifetime") with true.
    cbv iota. rewrite Hid.
    destruct (verifyStripePayment_charge_confirmed paymentIntents_retrieve
                subscriptions_retrieve customers_retrieve id w Hc)
      as (info & E).
    unfold bind. rewrite E. eexists. reflexivity.
  - change (plan_is (Val "annual") "lifetime") with false.
    change (plan_is (Val "annual") "annual") with true.
    cbv iota. rewrite Hid.
    destruct (verifyStripePayment_subscription_confirmed
                paymentIntents_retrieve subscriptions_retrieve
                customers_retrieve id w Hc) as (info & E).
    unfold bind. rewrite E. eexists. reflexivity.
Qed.

(** The license the handler makes up for a lifetime plan. *)
Lemma payments_license_lifetime paymentIntentId subscriptionId info w :
  verify_payment paymentIntents_retrieve subscriptions_retrieve
    customers_retrieve (Val "lifetime") paymentIntentId subscriptionId w
  = (Ok (true, info), w) ->
  let lic := {| name := or_default (info_name info) "Licensed User";
                email := or_default (info_email info) "";
                plan := "pro-lifetime";
                purchasedAt := clock w (clock_reads w);
                expiresAt := None |} in
  let token := jwt_sign jws_encode (License lic)
                 (clock w (S (clock_reads w)) / 1000) None in
  exists key,
    payments_license jws_encode paymentIntents_retrieve
      subscriptions_retrieve customers_retrieve
      (Val "lifetime") paymentIntentId subscriptionId w
    = (Ok {| status := 200; body := issued token key lic |},
       with_store
         (stored key token lic
            {| paymentIntentId := or_null paymentIntentId;
               subscriptionId := or_null subscriptionId;
               isDevelopment := Undefined |}
            (store w))
         (advance_entropy 20 (advance_clock 2 w)))
    /\ matches_key_pattern 5 key = true.
Proof.
  intros Hv lic token.
  destruct (generateLicenseKey_spec (advance_clock 2 w))
    as (s1 & s2 & s3 & s4 & s5 & E & K1 & K2 & K3 & K4 & K5).
  exists ("PFW-" +:+ join "-" [s1; s2; s3; s4; s5]).
  split; [| apply key_pattern_of_groups; assumption].
  unfold payments_license.
  change (valid_plan (Val "lifetime")) with true.
  change (plan_is (Val "lifetime") "annual") with false.
  cbv beta iota. change (negb true) with false. cbv iota.
  apply try_catch_ok.
  rewrite (bind_ok _ _ _ _ _ Hv). cbv beta iota. change (negb true) with false. cbv iota.
  erewrite bind_ok by reflexivity.
  erewrite bind_ok by reflexivity.
  erewrite bind_ok by (apply signLicenseToken_lifetime; reflexivity).
  erewrite bind_ok by exact E.
  erewrite bind_ok by apply storeLicense_effect.
  reflexivity.
Qed.

(** And for an annual plan: four readings of the clock. *)
Lemma payments_license_annual paymentIntentId subscriptionId info w :
  verify_payment paymentIntents_retrieve subscriptions_retrieve
    customers_retrieve (Val "annual") paymentIntentId subscriptionId w
  = (Ok (true, info), w) ->
  let e := clock w (S (clock_reads w)) + year_ms in
  let lic := {| name := or_default (info_name info) "Licensed User";
                email := or_default (info_email info) "";
                plan := "pro-annual";
                purchasedAt := clock w (clock_reads w);
                expiresAt := Some e |} in
  let token := jwt_sign jws_encode (License lic)
                 (clock w (S (S (clock_reads w))) / 1000)
                 (Some ((e - clock w (S (S (S (clock_reads w))))) / 1000)) in
  exists key,
    payments_license jws_encode paymentIntents_retrieve
      subscriptions_retrieve customers_retrieve
      (Val "annual") paymentIntentId subscriptionId w
    = (Ok {| status := 200; body := issued token key lic |},
       with_store
         (stored key token lic
            {| paymentIntentId := or_null paymentIntentId;
               subscriptionId := or_null subscriptionId;
               isDevelopment := Undefined |}
            (store w))
         (advance_entropy 20 (advance_clock 4 w)))
    /\ matches_key_pattern 5 key = true.
Proof.
  intros Hv e lic token.
  destruct (generateLicenseKey_spec (advance_clock 4 w))
    as (s1 & s2 & s3 & s4 & s5 & E & K1 & K2 & K3 & K4 & K5).
  exists ("PFW-" +:+ join "-" [s1; s2; s3; s4; s5]).
  split; [| apply key_pattern_of_groups; assumption].
  unfold payments_license.
  change (valid_plan (Val "annual")) with true.
  change (plan_is (Val "annual") "annual") with true.
  cbv beta iota. change (negb true) with false. cbv iota.
  apply try_catch_ok.
  rewrite (bind_ok _ _ _ _ _ Hv). cbv beta iota. change (negb true) with false. cbv iota.
  erewrite bind_ok by reflexivity.
  erewrite bind_ok by reflexivity.
  erewrite bind_ok by (apply (signLicenseToken_dated jws_encode _ e);
                       reflexivity).
  erewrite bind_ok by exact E.
  erewrite bind_ok by apply storeLicense_effect.
  reflexivity.
Qed.

End ConfirmedIssuance.

Section Issued.

Variable jws_encode : Claims -> string.
Variable paymentIntents_retrieve : string -> option PaymentIntent.
Variable subscriptions_retrieve : string -> option Subscription.
Variable customers_retrieve : string -> option Customer.

(** What a confirmed request gets, for both plans. *)
Lemma payments_license_confirmed requested paymentIntentId subscriptionId w :
  payment_confirmed paymentIntents_retrieve subscriptions_retrieve
    customers_retrieve requested paymentIntentId subscriptionId ->
  exists token key lic n c,
    payments_license jws_encode paymentIntents_retrieve
      subscriptions_retrieve customers_retrieve
      requested paymentIntentId subscriptionId w
    = (Ok {| status := 200; body := issued token key lic |},
       with_store
         (stored key token lic
            {| paymentIntentId := or_null paymentIntentId;
               subscriptionId := or_null subscriptionId;
               isDevelopment := Undefined |}
            (store w))
         (advance_entropy 20 (advance_clock n w)))
    /\ matches_key_pattern 5 key = true
    /\ token = jws_encode c
    /\ payload c = License lic
    /\ purchasedAt lic = clock w (clock_reads w)
    /\ (requested = Val "lifetime" ->
        plan lic = "pro-lifetime" /\ expiresAt lic = None /\ exp c = None)
    /\ (requested = Val "annual" ->
        plan lic = "pro-annual"
        /\ expiresAt lic = Some (clock w (S (clock_reads w)) + year_ms)).
Proof.
  intros Hc.
  destruct (verify_payment_complete paymentIntents_retrieve
              subscriptions_retrieve customers_retrieve
              requested paymentIntentId subscriptionId w Hc) as (info & Hv).
  destruct Hc as [[-> _] | [-> _]].
  - destruct (payments_license_lifetime jws_encode paymentIntents_retrieve
                subscriptions_retrieve customers_retrieve
                paymentIntentId subscriptionId info w Hv) as (key & E & Hk).
    eexists _, key, _, 2%nat, _.
    split; [exact E |]. split; [exact Hk |].
    unfold jwt_sign.
    split; [reflexivity |]. split; [reflexivity |]. split; [reflexivity |].
    split; [intros _; repeat split | discriminate].
  - destruct (payments_license_annual jws_encode paymentIntents_retrieve
                subscriptions_retrieve customers_retrieve
                paymentIntentId subscriptionId info w Hv) as (key & E & Hk).
    eexists _, key, _, 4%nat, _.
    split; [exact E |]. split; [exact Hk |].
    unfold jwt_sign.
    split; [reflexivity |]. split; [reflexivity |]. split; [reflexivity |].
    split; [discriminate | intros _; repeat split].
Qed.

End Issued.

(** X14.  A request whose payment the processor confirms is answered with
    200, a new token and a new key of the five-group format, and the
    license is stored under that key with both ids of the request; the
    token encodes claims carrying the license, which is bought at the
    first reading of the clock, [pro-lifetime] without expiry for the
    plan [lifetime], and [pro-annual] expiring 365 days after the second
    reading for the plan [annual]. *)
Theorem confirmed_payment_issues_a_license
    (jws_encode : Claims -> string)
    (paymentIntents_retrieve : string -> option PaymentIntent)
    (subscriptions_retrieve : string -> option Subscription)
    (customers_retrieve : string -> option Customer)
    (requested paymentIntentId subscriptionId : nullable string)
    (w : World) :
  payment_confirmed paymentIntents_retrieve subscriptions_retrieve
    customers_retrieve requested paymentIntentId subscriptionId ->
  exists token key lic n c,
    payments_license jws_encode paymentIntents_retrieve
      subscriptions_retrieve customers_retrieve
      requested paymentIntentId subscriptionId w
    = (Ok {| status := 200; body := issued token key lic |},
       with_store
         (stored key token lic
            {| paymentIntentId := or_null paymentIntentId;
               subscriptionId := or_null subscriptionId;
               isDevelopment := Undefined |}
            (store w))
         (advance_entropy 20 (advance_clock n w)))
    /\ matches_key_pattern 5 key = true
    /\ token = jws_encode c
    /\ payload c = License lic
    /\ purchasedAt lic = clock w (clock_reads w)
    /\ (requested = Val "lifetime" ->
        plan lic = "pro-lifetime" /\ expiresAt lic = None /\ exp c = None)
    /\ (requested = Val "annual" ->
        plan lic = "pro-annual"
        /\ expiresAt lic = Some (clock w (S (clock_reads w)) + year_ms)).
Proof. apply payments_license_confirmed. Qed.

Lemma paid_intent_confirmed :
  payment_confirmed paid_paymentIntents no_subscriptions no_customers
    (Val "lifetime") (Val "pi_123") Undefined.
Proof.
  left. split; [reflexivity |].
  exists "pi_123". split; [reflexivity |].
  exists example_intent. split; [reflexivity |]. split; [reflexivity |].
  intros id H. discriminate H.
Defined.

(** A lifetime request for the succeeded intent [pi_123]. *)
Lemma confirmed_payment_issues_a_license_witness :
  let w := world_at empty_store example_bought in
  payment_confirmed paid_paymentIntents no_subscriptions no_customers
    (Val "lifetime") (Val "pi_123") Undefined
  /\ exists token key lic n c,
      payments_license Codec.encode paid_paymentIntents no_subscriptions
        no_customers (Val "lifetime") (Val "pi_123") Undefined w
      = (Ok {| status := 200; body := issued token key lic |},
         with_store
           (stored key token lic
              {| paymentIntentId := or_null (Val "pi_123");
                 subscriptionId := or_null Undefined;
                 isDevelopment := Undefined |}
              (store w))
           (advance_entropy 20 (advance_clock n w)))
      /\ matches_key_pattern 5 key = true
      /\ token = Codec.encode c
      /\ payload c = License lic
      /\ purchasedAt lic = clock w (clock_reads w)
      /\ (Val "lifetime" = Val "lifetime" ->
          plan lic = "pro-lifetime" /\ expiresAt lic = None /\ exp c = None)
      /\ (@Val string "lifetime" = Val "annual" ->
          plan lic = "pro-annual"
          /\ expiresAt lic = Some (clock w (S (clock_reads w)) + year_ms)).
Proof.
  intros w. split; [exact paid_intent_confirmed |].
  exact (confirmed_payment_issues_a_license Codec.encode paid_paymentIntents
           no_subscriptions no_customers (Val "lifetime") (Val "pi_123")
           Undefined w paid_intent_confirmed).
Defined.

(** ** Redeeming *)

Lemma license_redeem_found jws_decode k r p w w1 :
  k <> "" ->
  licenses (store w) !! k = Some r ->
  verifyLicenseToken jws_decode (fullToken r) w = (Ok p, w1) ->
  license_redeem jws_decode (Val k) w
  = (Ok {| status := 200; body := redeemed (fullToken r) |}, w1).
Proof.
  intros Hk Hr Hv. unfold license_redeem. rewrite (present_Val _ Hk).
  apply try_catch_ok.
  erewrite bind_ok by reflexivity. rewrite Hr.
  erewrite bind_ok by exact Hv. reflexivity.
Qed.

Lemma license_redeem_rejected jws_decode k r e w w1 :
  k <> "" ->
  licenses (store w) !! k = Some r ->
  verifyLicenseToken jws_decode (fullToken r) w = (Throw e, w1) ->
  license_redeem jws_decode (Val k) w
  = (Ok {| status := 400; body := failure "Invalid license key" |}, w1).
Proof.
  intros Hk Hr Hv. unfold license_redeem. rewrite (present_Val _ Hk).
  erewrite try_catch_throw; [reflexivity |].
  erewrite bind_ok by reflexivity. rewrite Hr.
  erewrite bind_throw by exact Hv. reflexivity.
Qed.

Lemma key_pattern_nonempty n key :
  matches_key_pattern n key = true -> key <> "".
Proof. destruct key; [discriminate | discriminate]. Qed.

(** X15.  From payment to redemption: after a confirmed lifetime request
    has been answered with a key and a token, redeeming that key returns
    that very token with a 200, and verifying the token returns the
    issued license, [pro-lifetime] without expiry, in every later world
    that still holds the store the issuance left, whatever its clock. *)
Theorem issued_lifetime_key_redeems
    (jws_encode : Claims -> string) (jws_decode : string -> option Claims)
    (paymentIntents_retrieve : string -> option PaymentIntent)
    (subscriptions_retrieve : string -> option Subscription)
    (customers_retrieve : string -> option Customer)
    (paymentIntentId subscriptionId : nullable string) (w : World) :
  codec_law jws_encode jws_decode ->
  payment_confirmed paymentIntents_retrieve subscriptions_retrieve
    customers_retrieve (Val "lifetime") paymentIntentId subscriptionId ->
  exists token key lic,
    eval (payments_license jws_encode paymentIntents_retrieve
            subscriptions_retrieve customers_retrieve
            (Val "lifetime") paymentIntentId subscriptionId) w
    = Ok {| status := 200; body := issued token key lic |}
    /\ plan lic = "pro-lifetime"
    /\ expiresAt lic = None
    /\ forall w',
        store w'
        = store (exec (payments_license jws_encode paymentIntents_retrieve
                         subscriptions_retrieve customers_retrieve
                         (Val "lifetime") paymentIntentId subscriptionId) w) ->
        license_redeem jws_decode (Val key) w'
        = (Ok {| status := 200; body := redeemed token |}, advance_clock 1 w')
        /\ verifyLicenseToken jws_decode token w'
           = (Ok lic, advance_clock 1 w').
Proof.
  intros codec Hc.
  destruct (payments_license_confirmed jws_encode paymentIntents_retrieve
              subscriptions_retrieve customers_retrieve (Val "lifetime")
              paymentIntentId subscriptionId w Hc)
    as (token & key & lic & n & c & E & Hk & Ht & Hp & _ & Hl & _).
  destruct (Hl eq_refl) as (Hplan & Hnull & Hexp).
  exists token, key, lic.
  unfold eval, exec. rewrite E. simpl.
  split; [reflexivity |]. split; [exact Hplan |]. split; [exact Hnull |].
  intros w' Hs.
  assert (Hv : verifyLicenseToken jws_decode token w'
               = (Ok lic, advance_clock 1 w')).
  { subst token. destruct c as [pl i ex]. simpl in Hp, Hexp. subst pl ex.
    exact (verifyLicenseToken_lifetime jws_encode jws_decode codec lic i w'
             Hnull). }
  split; [| exact Hv].
  apply (license_redeem_found jws_decode key
           {| fullToken := token; license := lic;
              metadata := {| paymentIntentId := or_null paymentIntentId;
                             subscriptionId := or_null subscriptionId;
                             isDevelopment := Undefined |} |} lic).
  - exact (key_pattern_nonempty _ _ Hk).
  - rewrite Hs. apply lookup_insert_eq.
  - exact Hv.
Qed.

Lemma issued_lifetime_key_redeems_witness :
  let w := world_at empty_store example_bought in
  codec_law Codec.encode Codec.decode
  /\ payment_confirmed paid_paymentIntents no_subscriptions no_customers
       (Val "lifetime") (Val "pi_123") Undefined
  /\ exists token key lic,
      eval (payments_license Codec.encode paid_paymentIntents
              no_subscriptions no_customers
              (Val "lifetime") (Val "pi_123") Undefined) w
      = Ok {| status := 200; body := issued token key lic |}
      /\ plan lic = "pro-lifetime"
      /\ expiresAt lic = None
      /\ forall w',
          store w'
          = store (exec (payments_license Codec.encode paid_paymentIntents
                           no_subscriptions no_customers
                           (Val "lifetime") (Val "pi_123") Undefined) w) ->
          license_redeem Codec.decode (Val key) w'
          = (Ok {| status := 200; body := redeemed token |},
             advance_clock 1 w')
          /\ verifyLicenseToken Codec.decode token w'
             = (Ok lic, advance_clock 1 w').
Proof.
  intros w. split; [exact CodecFacts.decode_encode |].
  split; [exact paid_intent_confirmed |].
  exact (issued_lifetime_key_redeems Codec.encode Codec.decode
           paid_paymentIntents no_subscriptions no_customers
           (Val "pi_123") Undefined w CodecFacts.decode_encode
           paid_intent_confirmed).
Defined.

(** ** What an issuance leaves in the store *)

Lemma present_or_null v : present (or_null v) = present v.
Proof.
  unfold or_null. destruct v as [| | s]; simpl; try reflexivity.
  destruct s; reflexivity.
Qed.

Section AfterIssuance.

Variable jws_encode : Claims -> string.
Variable paymentIntents_retrieve : string -> option PaymentIntent.
Variable subscriptions_retrieve : string -> option Subscription.
Variable customers_retrieve : string -> option Customer.

Lemma payments_license_indexes requested paymentIntentId subscriptionId w :
  payment_confirmed paymentIntents_retrieve subscriptions_retrieve
    customers_retrieve requested paymentIntentId subscriptionId ->
  let w1 := exec (payments_license jws_encode paymentIntents_retrieve
                    subscriptions_retrieve customers_retrieve
                    requested paymentIntentId subscriptionId) w in
  exists token key lic,
    eval (payments_license jws_encode paymentIntents_retrieve
            subscriptions_retrieve customers_retrieve
            requested paymentIntentId subscriptionId) w
    = Ok {| status := 200; body := issued token key lic |}
    /\ let r := {| fullToken := token; license := lic;
                   metadata :=
                     {| paymentIntentId := or_null paymentIntentId;
                        subscriptionId := or_null subscriptionId;
                        isDevelopment := Undefined |} |} in
       licenses (store w1) !! key = Some r
       /\ (forall id, present paymentIntentId = Some id ->
                      through_index (store w1)
                        (paymentIntentIndex (store w1) !! id) = Some r)
       /\ (forall id, present subscriptionId = Some id ->
                      through_index (store w1)
                        (subscriptionIndex (store w1) !! id) = Some r)
       /\ (forall k, k <> key ->
                     licenses (store w1) !! k = licenses (store w) !! k).
Proof.
  intros Hc w1.
  destruct (payments_license_confirmed jws_encode paymentIntents_retrieve
              subscriptions_retrieve customers_retrieve requested
              paymentIntentId subscriptionId w Hc)
    as (token & key & lic & n & c & E & Hk & _).
  exists token, key, lic.
  subst w1. unfold eval, exec. rewrite E. simpl.
  pose proof (key_pattern_truthy _ _ Hk) as Ht.
  split; [reflexivity |].
  split; [apply lookup_insert_eq |].
  split; [| split].
  - intros id Hid.
    rewrite index_insert_lookup by (rewrite present_or_null; exact Hid).
    simpl. rewrite Ht. apply lookup_insert_eq.
  - intros id Hid.
    rewrite index_insert_lookup by (rewrite present_or_null; exact Hid).
    simpl. rewrite Ht. apply lookup_insert_eq.
  - intros k Hne. apply lookup_insert_ne. congruence.
Qed.

End AfterIssuance.

(** X16.  The synchronous issuance has no guard against a second license
    for one payment, and indexes whatever ids the request names: whatever
    the store held before, after a confirmed request the new key, the
    paymentIntentId and the subscriptionId of the request, each when
    truthy and whichever of them the plan had verified, all lead to the
    record just issued; records under other keys stay as they were. *)
Theorem issuance_points_both_ids_at_the_new_record
    (jws_encode : Claims -> string)
    (paymentIntents_retrieve : string -> option PaymentIntent)
    (subscriptions_retrieve : string -> option Subscription)
    (customers_retrieve : string -> option Customer)
    (requested paymentIntentId subscriptionId : nullable string)
    (w : World) :
  payment_confirmed paymentIntents_retrieve subscriptions_retrieve
    customers_retrieve requested paymentIntentId subscriptionId ->
  let w1 := exec (payments_license jws_encode paymentIntents_retrieve
                    subscriptions_retrieve customers_retrieve
                    requested paymentIntentId subscriptionId) w in
  exists token key lic,
    eval (payments_license jws_encode paymentIntents_retrieve
            subscriptions_retrieve customers_retrieve
            requested paymentIntentId subscriptionId) w
    = Ok {| status := 200; body := issued token key lic |}
    /\ let r := {| fullToken := token; license := lic;
                   metadata :=
                     {| paymentIntentId := or_null paymentIntentId;
                        subscriptionId := or_null subscriptionId;
                        isDevelopment := Undefined |} |} in
       getLicenseByKey key w1 = (Ok (Some r), w1)
       /\ (forall id, present paymentIntentId = Some id ->
                      getLicenseByPaymentIntent id w1 = (Ok (Some r), w1))
       /\ (forall id, present subscriptionId = Some id ->
                      getLicenseBySubscription id w1 = (Ok (Some r), w1))
       /\ (forall k, k <> key ->
                     licenses (store w1) !! k = licenses (store w) !! k).
Proof.
  intros Hc w1.
  destruct (payments_license_indexes jws_encode paymentIntents_retrieve
              subscriptions_retrieve customers_retrieve requested
              paymentIntentId subscriptionId w Hc)
    as (token & key & lic & E & Hr & Hp & Hs & Hother).
  fold w1 in Hr, Hp, Hs, Hother.
  exists token, key, lic. split; [exact E |].
  split; [| split; [| split]].
  - unfold getLicenseByKey, bind, get_store, ret. rewrite Hr. reflexivity.
  - intros id Hid. rewrite getLicenseByPaymentIntent_eq, (Hp id Hid).
    reflexivity.
  - intros id Hid. rewrite getLicenseBySubscription_eq, (Hs id Hid).
    reflexivity.
  - exact Hother.
Qed.

Lemma paid_intent_confirmed_beside subscriptionId :
  payment_confirmed paid_paymentIntents no_subscriptions no_customers
    (Val "lifetime") (Val "pi_123") subscriptionId.
Proof.
  left. split; [reflexivity |].
  exists "pi_123". split; [reflexivity |].
  exists example_intent. split; [reflexivity |]. split; [reflexivity |].
  intros id H. discriminate H.
Defined.

(** A lifetime request for [pi_123] that also names the subscription
    [sub_1], which no one has checked and which already has a record:
    afterwards [sub_1] leads to the new lifetime license. *)
Lemma issuance_points_both_ids_at_the_new_record_witness :
  let w := world_at example_annual_store example_bought in
  let w1 := exec (payments_license Codec.encode paid_paymentIntents
                    no_subscriptions no_customers
                    (Val "lifetime") (Val "pi_123") (Val "sub_1")) w in
  payment_confirmed paid_paymentIntents no_subscriptions no_customers
    (Val "lifetime") (Val "pi_123") (Val "sub_1")
  /\ exists token key lic,
      eval (payments_license Codec.encode paid_paymentIntents
              no_subscriptions no_customers
              (Val "lifetime") (Val "pi_123") (Val "sub_1")) w
      = Ok {| status := 200; body := issued token key lic |}
      /\ let r := {| fullToken := token; license := lic;
                     metadata :=
                       {| paymentIntentId := or_null (Val "pi_123");
                          subscriptionId := or_null (Val "sub_1");
                          isDevelopment := Undefined |} |} in
         getLicenseByKey key w1 = (Ok (Some r), w1)
         /\ (forall id, present (Val "pi_123") = Some id ->
                        getLicenseByPaymentIntent id w1 = (Ok (Some r), w1))
         /\ (forall id, present (Val "sub_1") = Some id ->
                        getLicenseBySubscription id w1 = (Ok (Some r), w1))
         /\ (forall k, k <> key ->
                       licenses (store w1) !! k = licenses (store w) !! k).
Proof.
  intros w w1. split; [exact (paid_intent_confirmed_beside (Val "sub_1")) |].
  exact (issuance_points_both_ids_at_the_new_record Codec.encode
           paid_paymentIntents no_subscriptions no_customers
           (Val "lifetime") (Val "pi_123") (Val "sub_1") w
           (paid_intent_confirmed_beside (Val "sub_1"))).
Defined.

(** X17.  After a confirmed synchronous issuance the webhook has nothing
    left to do for the ids of the request: a charge-succeeded event for
    its payment intent and an invoice-paid event for its subscription are
    acknowledged with 200 and leave the world as it is. *)
Theorem webhook_after_issuance_changes_nothing
    (jws_encode : Claims -> string)
    (paymentIntents_retrieve : string -> option PaymentIntent)
    (subscriptions_retrieve : string -> option Subscription)
    (customers_retrieve : string -> option Customer)
    (requested paymentIntentId subscriptionId : nullable string)
    (w : World) :
  payment_confirmed paymentIntents_retrieve subscriptions_retrieve
    customers_retrieve requested paymentIntentId subscriptionId ->
  let w1 := exec (payments_license jws_encode paymentIntents_retrieve
                    subscriptions_retrieve customers_retrieve
                    requested paymentIntentId subscriptionId) w in
  (forall paymentIntent,
      present paymentIntentId = Some (pi_id paymentIntent) ->
      stripe_webhook jws_encode (payment_intent_succeeded paymentIntent) w1
      = (Ok {| status := 200; body := received |}, w1))
  /\ (forall invoice id,
        present subscriptionId = Some id ->
        present (inv_subscription invoice) = Some id ->
        stripe_webhook jws_encode (invoice_payment_succeeded invoice) w1
        = (Ok {| status := 200; body := received |}, w1)).
Proof.
  intros Hc w1.
  destruct (payments_license_indexes jws_encode paymentIntents_retrieve
              subscriptions_retrieve customers_retrieve requested
              paymentIntentId subscriptionId w Hc)
    as (token & key & lic & _ & _ & Hp & Hs & _).
  fold w1 in Hp, Hs.
  split.
  - intros paymentIntent Hid.
    unfold stripe_webhook, dispatch. apply try_catch_ok.
    erewrite bind_ok
      by exact (handlePaymentIntentSucceeded_known jws_encode paymentIntent
                  w1 _ (Hp _ Hid)).
    reflexivity.
  - intros invoice id Hid Hinv.
    unfold stripe_webhook, dispatch. apply try_catch_ok.
    erewrite bind_ok
      by exact (handleInvoicePaymentSucceeded_known jws_encode invoice id _
                  w1 Hinv (Hs _ Hid)).
    reflexivity.
Qed.

Lemma webhook_after_issuance_changes_nothing_witness :
  let w := world_at empty_store example_bought in
  let w1 := exec (payments_license Codec.encode paid_paymentIntents
                    no_subscriptions no_customers
                    (Val "lifetime") (Val "pi_123") Undefined) w in
  payment_confirmed paid_paymentIntents no_subscriptions no_customers
    (Val "lifetime") (Val "pi_123") Undefined
  /\ present (Val "pi_123") = Some (pi_id example_intent)
  /\ stripe_webhook Codec.encode (payment_intent_succeeded example_intent) w1
     = (Ok {| status := 200; body := received |}, w1).
Proof.
  intros w w1. split; [exact paid_intent_confirmed |].
  split; [reflexivity |].
  exact (proj1 (webhook_after_issuance_changes_nothing Codec.encode
                  paid_paymentIntents no_subscriptions no_customers
                  (Val "lifetime") (Val "pi_123") Undefined w
                  paid_intent_confirmed)
           example_intent eq_refl).
Defined.

(** ** The indexes always resolve *)

Lemma index_insert_resolves v key index (m : gmap string LicenseRecord) r :
  (forall id k, index !! id = Some k -> is_Some (m !! k)) ->
  forall id k,
    index_insert v key index !! id = Some k ->
    is_Some (<[key := r]> m !! k).
Proof.
  intros H id k Hk. unfold index_insert in Hk.
  destruct (decide (k = key)) as [-> | Hne].
  - rewrite lookup_insert_eq. eauto.
  - rewrite lookup_insert_ne by congruence.
    destruct (present v) as [id' |]; [| eauto].
    destruct (decide (id' = id)) as [-> | Hid].
    + rewrite lookup_insert_eq in Hk. congruence.
    + rewrite lookup_insert_ne in Hk by exact Hid. eauto.
Qed.

Lemma stored_resolves key token lic meta s :
  indexes_resolve s -> indexes_resolve (stored key token lic meta s).
Proof.
  intros [Hp Hs]. split; simpl.
  - apply index_insert_resolves. exact Hp.
  - apply index_insert_resolves. exact Hs.
Qed.

Lemma updateLicense_resolves key token lic w :
  indexes_resolve (store w) ->
  indexes_resolve (store (exec (updateLicense key token lic) w)).
Proof.
  intros [Hp Hs]. unfold exec.
  destruct key as [| | k]; try exact (conj Hp Hs).
  destruct (licenses (store w) !! k) as [existing |] eqn:E.
  - rewrite (updateLicense_effect k token lic existing w E). simpl.
    split; simpl; intros id k' Hk'.
    + destruct (decide (k' = k)) as [-> | Hne];
        [rewrite lookup_insert_eq; eauto
        | rewrite lookup_insert_ne by congruence; eauto].
    + destruct (decide (k' = k)) as [-> | Hne];
        [rewrite lookup_insert_eq; eauto
        | rewrite lookup_insert_ne by congruence; eauto].
  - rewrite (updateLicense_missing k token lic w E). exact (conj Hp Hs).
Qed.

Lemma keeps_store_stores_at_most_one {A} (m : M A) :
  keeps_store m -> stores_at_most_one m.
Proof. intros H w. left. apply H. Qed.

Section Handlers.

Variable jws_encode : Claims -> string.
Variable jws_decode : string -> option Claims.

Lemma keeps_store_handleSubscriptionChanged subscription :
  keeps_store (handleSubscriptionChanged jws_encode subscription).
Proof.
  unfold handleSubscriptionChanged.
  apply keeps_store_bind; [intros w; reflexivity |].
  intros [existing |]; [| auto with keeps_store].
  destruct (String.eqb (sub_status subscription) "active");
    [| auto with keeps_store].
  apply keeps_store_bind; [apply keeps_store_signLicenseToken |].
  intros token w. reflexivity.
Qed.

Lemma keeps_store_handleSubscriptionDeleted subscription :
  keeps_store (handleSubscriptionDeleted jws_encode subscription).
Proof.
  unfold handleSubscriptionDeleted.
  apply keeps_store_bind; [intros w; reflexivity |].
  intros [existing |]; [| auto with keeps_store].
  apply keeps_store_bind; [apply keeps_store_Date_now |].
  intros now.
  apply keeps_store_bind; [apply keeps_store_signLicenseToken |].
  intros token w. reflexivity.
Qed.

(** The first delivery for an unknown id, with the format of its key. *)
Lemma handlePaymentIntentSucceeded_unknown_key paymentIntent w :
  through_index (store w)
    (paymentIntentIndex (store w) !! pi_id paymentIntent) = None ->
  exists key token lic,
    handlePaymentIntentSucceeded jws_encode paymentIntent w
    = (Ok tt,
       with_store
         (stored key token lic
            {| paymentIntentId := Val (pi_id paymentIntent);
               subscriptionId := Undefined; isDevelopment := Undefined |}
            (store w))
         (advance_entropy 20 (advance_clock 2 w)))
    /\ matches_key_pattern 5 key = true.
Proof.
  intros Hnone.
  destruct (generateLicenseKey_spec (advance_clock 2 w))
    as (s1 & s2 & s3 & s4 & s5 & E & K1 & K2 & K3 & K4 & K5).
  exists ("PFW-" +:+ join "-" [s1; s2; s3; s4; s5]).
  eexists _, _.
  split; [| apply key_pattern_of_groups; assumption].
  unfold handlePaymentIntentSucceeded.
  erewrite bind_ok by apply getLicenseByPaymentIntent_eq.
  rewrite Hnone. cbv beta iota.
  erewrite bind_ok by reflexivity.
  erewrite bind_ok by (apply signLicenseToken_lifetime; reflexivity).
  erewrite bind_ok by exact E.
  rewrite storeLicense_effect. reflexivity.
Qed.

Lemma handlePaymentIntentSucceeded_stores paymentIntent :
  stores_at_most_one (handlePaymentIntentSucceeded jws_encode paymentIntent).
Proof.
  intros w.
  destruct (through_index (store w)
              (paymentIntentIndex (store w) !! pi_id paymentIntent))
    as [r |] eqn:E.
  - left. unfold exec.
    rewrite (handlePaymentIntentSucceeded_known jws_encode paymentIntent w r E).
    reflexivity.
  - right.
    destruct (handlePaymentIntentSucceeded_unknown_key paymentIntent w E)
      as (key & token & lic & Eh & Hk).
    unfold exec. rewrite Eh. simpl. eauto 10.
Qed.

Lemma handleInvoicePaymentSucceeded_stores invoice :
  stores_at_most_one (handleInvoicePaymentSucceeded jws_encode invoice).
Proof.
  intros w.
  destruct (present (inv_subscription invoice)) as [id |] eqn:Hid.
  - destruct (through_index (store w) (subscriptionIndex (store w) !! id))
      as [r |] eqn:E.
    + left. unfold exec.
      rewrite (handleInvoicePaymentSucceeded_known jws_encode invoice id r w
                 Hid E).
      reflexivity.
    + right.
      destruct (handleInvoicePaymentSucceeded_unknown jws_encode invoice id w
                  Hid E) as (key & token & Eh & Hk).
      unfold exec. rewrite Eh. simpl. eauto 10.
  - left. unfold exec.
    rewrite (handleInvoicePaymentSucceeded_no_subscription jws_encode invoice
               w Hid).
    reflexivity.
Qed.

Lemma dispatch_stores event :
  stores_at_most_one (dispatch jws_encode event).
Proof.
  destruct event as [o | o | o | o | o | t]; simpl.
  - apply handlePaymentIntentSucceeded_stores.
  - apply handleInvoicePaymentSucceeded_stores.
  - apply keeps_store_stores_at_most_one,
      keeps_store_handleSubscriptionChanged.
  - apply keeps_store_stores_at_most_one,
      keeps_store_handleSubscriptionChanged.
  - apply keeps_store_stores_at_most_one,
      keeps_store_handleSubscriptionDeleted.
  - apply keeps_store_stores_at_most_one. auto with keeps_store.
Qed.

Lemma stripe_webhook_store event w :
  store (exec (stripe_webhook jws_encode event) w)
  = store (exec (dispatch jws_encode event) w).
Proof.
  unfold exec, stripe_webhook, try_catch, bind.
  destruct (dispatch jws_encode event w) as [[a | e] w']; reflexivity.
Qed.

Lemma keeps_store_license_redeem licenseKey :
  keeps_store (license_redeem jws_decode licenseKey).
Proof.
  unfold license_redeem.
  apply keeps_store_try_catch; [| intros e; auto with keeps_store].
  destruct (present licenseKey) as [k |]; [| auto with keeps_store].
  apply keeps_store_bind; [apply keeps_store_getLicenseByKey |].
  intros [r |]; [| auto with keeps_store].
  apply keeps_store_bind;
    [apply keeps_store_verifyLicenseToken | auto with keeps_store].
Qed.

End Handlers.

Lemma valid_plan_cases requested :
  valid_plan requested = true ->
  requested = Val "annual" \/ requested = Val "lifetime".
Proof.
  unfold valid_plan.
  destruct (present requested) as [p |] eqn:E; [| discriminate].
  destruct (present_truthy _ _ E) as [-> _].
  intros H. apply orb_true_iff in H.
  destruct H as [H | H]; apply String.eqb_eq in H; subst; auto.
Qed.

Section ServingFacts.

Variable jws_encode : Claims -> string.
Variable jws_decode : string -> option Claims.
Variable paymentIntents_retrieve : string -> option PaymentIntent.
Variable subscriptions_retrieve : string -> option Subscription.
Variable customers_retrieve : string -> option Customer.

Lemma payments_license_stores requested paymentIntentId subscriptionId :
  stores_at_most_one
    (payments_license jws_encode paymentIntents_retrieve
       subscriptions_retrieve customers_retrieve
       requested paymentIntentId subscriptionId).
Proof.
  intros w.
  destruct (valid_plan requested) eqn:Ev.
  - destruct (verify_payment_sound paymentIntents_retrieve
                subscriptions_retrieve customers_retrieve
                requested paymentIntentId subscriptionId w)
      as (v & info & E & _).
    destruct v.
    + right.
      destruct (valid_plan_cases requested Ev) as [-> | ->].
      * destruct (payments_license_annual jws_encode paymentIntents_retrieve
                    subscriptions_retrieve customers_retrieve
                    paymentIntentId subscriptionId info w E)
          as (key & Ep & Hk).
        unfold exec. rewrite Ep. simpl. eauto 10.
      * destruct (payments_license_lifetime jws_encode
                    paymentIntents_retrieve subscriptions_retrieve
                    customers_retrieve paymentIntentId subscriptionId info w
                    E) as (key & Ep & Hk).
        unfold exec. rewrite Ep. simpl. eauto 10.
    + left. unfold exec, payments_license. rewrite Ev.
      change (negb true) with false. cbv iota.
      erewrite try_catch_ok; [reflexivity |].
      rewrite (bind_ok _ _ _ _ _ E). reflexivity.
  - left. unfold exec, payments_license. rewrite Ev. reflexivity.
Qed.

Lemma serve_stores r :
  stores_at_most_one
    (serve jws_encode jws_decode paymentIntents_retrieve
       subscriptions_retrieve customers_retrieve r).
Proof.
  destruct r as [event | k | k | requested pid sid]; simpl.
  - intros w. rewrite stripe_webhook_store. apply dispatch_stores.
  - apply keeps_store_stores_at_most_one, keeps_store_license_verify.
  - apply keeps_store_stores_at_most_one, keeps_store_license_redeem.
  - apply payments_license_stores.
Qed.

Lemma serve_all_resolves rs :
  forall w,
    indexes_resolve (store w) ->
    indexes_resolve
      (store (serve_all jws_encode jws_decode paymentIntents_retrieve
                subscriptions_retrieve customers_retrieve rs w)).
Proof.
  induction rs as [| r rest IH]; intros w H; [exact H |].
  simpl. apply IH.
  destruct (serve_stores r w) as [E | (key & token & lic & meta & E & _)];
    rewrite E; [exact H | apply stored_resolves; exact H].
Qed.

End ServingFacts.

(** X18.  Every entry of the payment-intent index and of the
    subscription index names a key that holds a record: this is so in the
    store the constructor leaves, it is kept by storeLicense and by
    updateLicense whatever their arguments, and so it holds after any
    sequence of webhook events, license verifications, redemptions and
    issuance requests. *)
Theorem indexes_always_resolve
    (jws_encode : Claims -> string) (jws_decode : string -> option Claims)
    (paymentIntents_retrieve : string -> option PaymentIntent)
    (subscriptions_retrieve : string -> option Subscription)
    (customers_retrieve : string -> option Customer)
    (boot : World) (rs : list Request) :
  indexes_resolve
    (store (serve_all jws_encode jws_decode paymentIntents_retrieve
              subscriptions_retrieve customers_retrieve rs
              (exec (LicenseStore_new jws_encode) boot)))
  /\ (forall key token lic meta w,
        indexes_resolve (store w) ->
        indexes_resolve (store (exec (storeLicense key token lic meta) w)))
  /\ (forall key token lic w,
        indexes_resolve (store w) ->
        indexes_resolve (store (exec (updateLicense key token lic) w))).
Proof.
  split; [| split].
  - apply serve_all_resolves.
    destruct (LicenseStore_new_licenses jws_encode boot) as [annual E].
    rewrite E. split; simpl; intros id k H;
      rewrite lookup_empty in H; discriminate.
  - intros key token lic meta w H. unfold exec.
    rewrite storeLicense_effect. simpl. apply stored_resolves. exact H.
  - intros key token lic w H. apply updateLicense_resolves. exact H.
Qed.

(** ** Records stay *)

Section Staying.

Variable jws_encode : Claims -> string.
Variable jws_decode : string -> option Claims.
Variable paymentIntents_retrieve : string -> option PaymentIntent.
Variable subscriptions_retrieve : string -> option Subscription.
Variable customers_retrieve : string -> option Customer.

Lemma serve_all_keeps_keys rs :
  forall w k,
    is_Some (licenses (store w) !! k) ->
    is_Some
      (licenses
         (store (serve_all jws_encode jws_decode paymentIntents_retrieve
                   subscriptions_retrieve customers_retrieve rs w)) !! k).
Proof.
  induction rs as [| r rest IH]; intros w k H; [exact H |].
  simpl. apply IH.
  destruct (serve_stores jws_encode jws_decode paymentIntents_retrieve
              subscriptions_retrieve customers_retrieve r w)
    as [E | (key & token & lic & meta & E & _)]; rewrite E; [exact H |].
  simpl. apply lookup_insert_is_Some'. right. exact H.
Qed.

Lemma serve_all_keeps_other_formats rs :
  forall w k r,
    matches_key_pattern 5 k = false ->
    licenses (store w) !! k = Some r ->
    licenses
      (store (serve_all jws_encode jws_decode paymentIntents_retrieve
                subscriptions_retrieve customers_retrieve rs w)) !! k
    = Some r.
Proof.
  induction rs as [| r0 rest IH]; intros w k r Hk H; [exact H |].
  simpl. apply (IH _ k r Hk).
  destruct (serve_stores jws_encode jws_decode paymentIntents_retrieve
              subscriptions_retrieve customers_retrieve r0 w)
    as [E | (key & token & lic & meta & E & Hkey)]; rewrite E; [exact H |].
  simpl. rewrite lookup_insert_ne by congruence. exact H.
Qed.

End Staying.

(** X19.  No request removes a record: a key that holds a record before
    any sequence of webhook events, verifications, redemptions and
    issuance requests holds one after it; and a record whose key is not
    of the generated five-group format is still the same record, since
    the requests write only under freshly generated keys. *)
Theorem records_are_never_removed
    (jws_encode : Claims -> string) (jws_decode : string -> option Claims)
    (paymentIntents_retrieve : string -> option PaymentIntent)
    (subscriptions_retrieve : string -> option Subscription)
    (customers_retrieve : string -> option Customer)
    (rs : list Request) (w : World) :
  let after := serve_all jws_encode jws_decode paymentIntents_retrieve
                 subscriptions_retrieve customers_retrieve rs w in
  (forall k, is_Some (licenses (store w) !! k) ->
             is_Some (licenses (store after) !! k))
  /\ (forall k r, matches_key_pattern 5 k = false ->
                  licenses (store w) !! k = Some r ->
                  licenses (store after) !! k = Some r).
Proof.
  intros after. split.
  - intros k. apply serve_all_keeps_keys.
  - intros k r. apply serve_all_keeps_other_formats.
Qed.



(** X21.  License redeem looks keys up and nothing else: it never
    changes the store; without a key it answers 400 [License key
    required]; an input that is not a key of the store, a valid token
    included, gets 400 [Invalid license key] with the world untouched;
    for a key of the store it answers with the stored token itself, not
    a re-signed one, when that token verifies, and with 400 when it does
    not. *)
Theorem license_redeem_returns_the_stored_token
    (jws_decode : string -> option Claims) (licenseKey : nullable string)
    (w : World) :
  store (exec (license_redeem jws_decode licenseKey) w) = store w
  /\ (present licenseKey = None ->
      license_redeem jws_decode licenseKey w
      = (Ok {| status := 400; body := failure "License key required" |}, w))
  /\ forall k,
      present licenseKey = Some k ->
      (licenses (store w) !! k = None ->
       license_redeem jws_decode licenseKey w
       = (Ok {| status := 400; body := failure "Invalid license key" |}, w))
      /\ forall r,
          licenses (store w) !! k = Some r ->
          (forall p,
              eval (verifyLicenseToken jws_decode (fullToken r)) w = Ok p ->
              eval (license_redeem jws_decode licenseKey) w
              = Ok {| status := 200; body := redeemed (fullToken r) |})
          /\ (forall e,
                eval (verifyLicenseToken jws_decode (fullToken r)) w
                = Throw e ->
                eval (license_redeem jws_decode licenseKey) w
                = Ok {| status := 400;
                        body := failure "Invalid license key" |}).
Proof.
  split; [apply keeps_store_license_redeem |].
  split.
  - intros H. unfold license_redeem, try_catch. rewrite H. reflexivity.
  - intros k Hk.
    destruct (present_truthy _ _ Hk) as [-> Hne].
    split.
    + intros Hnone. unfold license_redeem. rewrite Hk.
      apply try_catch_ok.
      erewrite bind_ok by reflexivity. rewrite Hnone. reflexivity.
    + intros r Hr. split.
      * intros p Hv. unfold eval at 1.
        rewrite (license_redeem_found jws_decode k r p w
                   (exec (verifyLicenseToken jws_decode (fullToken r)) w)
                   Hne Hr);
          [reflexivity |].
        rewrite (run_eq (verifyLicenseToken jws_decode (fullToken r)) w), Hv.
        reflexivity.
      * intros e Hv. unfold eval at 1.
        rewrite (license_redeem_rejected jws_decode k r e w
                   (exec (verifyLicenseToken jws_decode (fullToken r)) w)
                   Hne Hr);
          [reflexivity |].
        rewrite (run_eq (verifyLicenseToken jws_decode (fullToken r)) w), Hv.
        reflexivity.
Qed.

(** ** The trial endpoints *)







(** ** Creating a payment *)

Section CreatingFacts.

Variable customers_list : nullable string -> Settled (list string).
Variable customers_create : CustomerParams -> Settled string.
Variable subscriptions_create : SubscriptionParams -> Settled CreatedSubscription.
Variable paymentIntents_create : IntentParams -> Settled CreatedIntent.
Variable STRIPE_PRICE_ID_YEARLY : nullable string.
Variable CURRENCY : nullable string.
Variable type_error : string.

Lemma create_or_get_customer_existing name email phone billingAddress
    existing others :
  customers_list email = resolved (existing :: others) ->
  forall create,
    create_or_get_customer customers_list create name email phone
      billingAddress
    = resolved existing.
Proof.
  intros H create. unfold create_or_get_customer. rewrite H. reflexivity.
Qed.

Lemma create_or_get_customer_new name email phone billingAddress :
  customers_list email = resolved [] ->
  create_or_get_customer customers_list customers_create name email phone
    billingAddress
  = customers_create
      {| new_name := name; new_email := email; new_phone := phone;
         new_address := address_params billingAddress |}.
Proof.
  intros H. unfold create_or_get_customer. rewrite H. reflexivity.
Qed.

End CreatingFacts.

(** X25.  A customer the processor already lists for the email is used
    again: then neither function depends on what customers.create would
    answer, and every successful result names the first listed customer.
    When none is listed, the customer of every successful result is the
    one customers.create answered for the name, email, phone and address
    of the request. *)
Theorem listed_customer_is_used_again
    (customers_list : nullable string -> Settled (list string))
    (customers_create : CustomerParams -> Settled string)
    (subscriptions_create : SubscriptionParams -> Settled CreatedSubscription)
    (paymentIntents_create : IntentParams -> Settled CreatedIntent)
    (STRIPE_PRICE_ID_YEARLY CURRENCY : nullable string)
    (type_error : string) (cents : Z) (name email phone : nullable string)
    (billingAddress : nullable BillingAddress) :
  (forall existing others,
      customers_list email = resolved (existing :: others) ->
      (forall create',
          createStripeSubscription customers_list create'
            subscriptions_create STRIPE_PRICE_ID_YEARLY type_error
            name email phone billingAddress
          = createStripeSubscription customers_list customers_create
              subscriptions_create STRIPE_PRICE_ID_YEARLY type_error
              name email phone billingAddress
          /\ createStripePaymentIntent customers_list create'
               paymentIntents_create CURRENCY cents name email phone
               billingAddress
             = createStripePaymentIntent customers_list customers_create
                 paymentIntents_create CURRENCY cents name email phone
                 billingAddress)
      /\ (forall id secret customer,
            createStripeSubscription customers_list customers_create
              subscriptions_create STRIPE_PRICE_ID_YEARLY type_error
              name email phone billingAddress
            = subscription_created id secret customer ->
            customer = existing)
      /\ (forall id secret customer,
            createStripePaymentIntent customers_list customers_create
              paymentIntents_create CURRENCY cents name email phone
              billingAddress
            = intent_created id secret customer ->
            customer = existing))
  /\ (customers_list email = resolved [] ->
      forall id secret customer,
        createStripePaymentIntent customers_list customers_create
          paymentIntents_create CURRENCY cents name email phone
          billingAddress
        = intent_created id secret customer
        \/ createStripeSubscription customers_list customers_create
             subscriptions_create STRIPE_PRICE_ID_YEARLY type_error
             name email phone billingAddress
           = subscription_created id secret customer ->
        customers_create
          {| new_name := name; new_email := email; new_phone := phone;
             new_address := address_params billingAddress |}
        = resolved customer).
Proof.
  split.
  - intros existing others Hl.
    split; [| split].
    + intros create'.
      unfold createStripeSubscription, createStripePaymentIntent.
      rewrite !(create_or_get_customer_existing customers_list name email
                  phone billingAddress existing others Hl).
      split; reflexivity.
    + intros id secret customer.
      unfold createStripeSubscription.
      rewrite (create_or_get_customer_existing customers_list name email
                 phone billingAddress existing others Hl).
      destruct (subscriptions_create _) as [s | m]; [| discriminate].
      destruct (latest_client_secret s); [| discriminate].
      intros H. injection H as _ _ <-. reflexivity.
    + intros id secret customer.
      unfold createStripePaymentIntent.
      rewrite (create_or_get_customer_existing customers_list name email
                 phone billingAddress existing others Hl).
      destruct (paymentIntents_create _) as [s | m]; [| discriminate].
      intros H. injection H as _ _ <-. reflexivity.
  - intros Hl id secret customer.
    unfold createStripeSubscription, createStripePaymentIntent.
    rewrite !(create_or_get_customer_new customers_list customers_create
                name email phone billingAddress Hl).
    destruct (customers_create _) as [c | m].
    + intros [H | H].
      * destruct (paymentIntents_create _) as [s | m]; [| discriminate].
        injection H as _ _ <-. reflexivity.
      * destruct (subscriptions_create _) as [s | m]; [| discriminate].
        destruct (latest_client_secret s); [| discriminate].
        injection H as _ _ <-. reflexivity.
    + intros [H | H]; discriminate.
Qed.

(** Neither function ever throws, and each reports the first call
    that fails: a rejected customers.list, a rejected customers.create
    when no customer is listed, or a rejected creation of the subscription
    or payment intent gives [ok: false] with the message of that
    rejection; a subscription without a payment intent on its latest
    invoice gives [ok: false] as well.  When no call fails the result is
    the id and client secret the processor created, with the customer. *)
Lemma creation_reports_the_first_failure
    (customers_list : nullable string -> Settled (list string))
    (customers_create : CustomerParams -> Settled string)
    (subscriptions_create : SubscriptionParams -> Settled CreatedSubscription)
    (paymentIntents_create : IntentParams -> Settled CreatedIntent)
    (STRIPE_PRICE_ID_YEARLY CURRENCY : nullable string)
    (type_error : string) (cents : Z) (name email phone : nullable string)
    (billingAddress : nullable BillingAddress) :
  let customer :=
    create_or_get_customer customers_list customers_create name email phone
      billingAddress in
  let subscription :=
    createStripeSubscription customers_list customers_create
      subscriptions_create STRIPE_PRICE_ID_YEARLY type_error
      name email phone billingAddress in
  let intent :=
    createStripePaymentIntent customers_list customers_create
      paymentIntents_create CURRENCY cents name email phone billingAddress in
  (forall m, customers_list email = rejected m -> customer = rejected m)
  /\ (forall m,
        customer = rejected m ->
        subscription = creation_failed m /\ intent = creation_failed m)
  /\ (forall c,
        customer = resolved c ->
        (forall m,
            subscriptions_create
              {| for_customer := c; price := STRIPE_PRICE_ID_YEARLY;
                 meta_customerName := name; meta_customerEmail := email |}
            = rejected m ->
            subscription = creation_failed m)
        /\ (forall s,
              subscriptions_create
                {| for_customer := c; price := STRIPE_PRICE_ID_YEARLY;
                   meta_customerName := name; meta_customerEmail := email |}
              = resolved s ->
              subscription
              = match latest_client_secret s with
                | Some secret =>
                    subscription_created (created_sub_id s) secret c
                | None => creation_failed type_error
                end)
        /\ (forall m,
              paymentIntents_create
                {| amount := cents; currency := or_default CURRENCY "USD";
                   intent_customer := c; receipt_email := email;
                   meta_name := name; meta_email := email |}
              = rejected m ->
              intent = creation_failed m)
        /\ (forall p,
              paymentIntents_create
                {| amount := cents; currency := or_default CURRENCY "USD";
                   intent_customer := c; receipt_email := email;
                   meta_name := name; meta_email := email |}
              = resolved p ->
              intent
              = intent_created (created_intent_id p)
                  (intent_client_secret p) c)).
Proof.
  intros customer subscription intent.
  split; [| split].
  - intros m H. subst customer. unfold create_or_get_customer.
    rewrite H. reflexivity.
  - intros m H. subst subscription intent.
    unfold createStripeSubscription, createStripePaymentIntent.
    fold customer. rewrite H. split; reflexivity.
  - intros c H. subst subscription intent.
    unfold createStripeSubscription, createStripePaymentIntent.
    fold customer. rewrite H.
    split; [| split; [| split]]; intros x Hx; rewrite Hx; reflexivity.
Qed.

(** X26.  Payments create answers 400 [Missing required fields] when the
    plan, the name or the email is missing or empty, and 400 [Invalid
    plan] for a plan other than [annual] and [lifetime], in both cases
    whatever the processor would answer.  For a valid request it answers
    200 with what the creation resolved to, a subscription for [annual]
    and a payment intent of [lifetimeAmount] for [lifetime]: a failure of
    the processor comes back as 200 with [ok: false], never as a 5xx. *)
Theorem payments_create_validates_then_answers_200
    (customers_list : nullable string -> Settled (list string))
    (customers_create : CustomerParams -> Settled string)
    (subscriptions_create : SubscriptionParams -> Settled CreatedSubscription)
    (paymentIntents_create : IntentParams -> Settled CreatedIntent)
    (STRIPE_PRICE_ID_YEARLY CURRENCY : nullable string)
    (type_error : string) (lifetimeAmount : Z)
    (requested name email phone : nullable string)
    (billingAddress : nullable BillingAddress) :
  let answer :=
    payments_create customers_list customers_create subscriptions_create
      paymentIntents_create STRIPE_PRICE_ID_YEARLY CURRENCY type_error
      lifetimeAmount requested name email phone billingAddress in
  (present requested = None \/ present name = None \/ present email = None ->
   answer = (400, create_error "Missing required fields"))
  /\ (forall p,
        present requested = Some p ->
        present name <> None -> present email <> None ->
        (p <> "annual" -> p <> "lifetime" ->
         answer = (400, create_error "Invalid plan"))
        /\ (p = "annual" ->
            answer
            = (200, create_result
                      (createStripeSubscription customers_list
                         customers_create subscriptions_create
                         STRIPE_PRICE_ID_YEARLY type_error
                         name email phone billingAddress)))
        /\ (p = "lifetime" ->
            answer
            = (200, create_result
                      (createStripePaymentIntent customers_list
                         customers_create paymentIntents_create CURRENCY
                         lifetimeAmount name email phone billingAddress))))
  /\ (fst answer = 200 \/ fst answer = 400).
Proof.
  intros answer. subst answer. unfold payments_create.
  split; [| split].
  - intros [H | [H | H]]; rewrite H;
      destruct (present requested), (present name), (present email);
      reflexivity.
  - intros p Hp Hn He. rewrite Hp.
    destruct (present name) as [n |]; [| congruence].
    destruct (present email) as [e |]; [| congruence].
    split; [| split].
    + intros H1 H2. apply String.eqb_neq in H1, H2. rewrite H1, H2.
      reflexivity.
    + intros ->. reflexivity.
    + intros ->. reflexivity.
  - destruct (present requested) as [p |]; [| right; reflexivity].
    destruct (present name); [| right; reflexivity].
    destruct (present email); [| right; reflexivity].
    destruct (negb (String.eqb p "annual" || String.eqb p "lifetime"));
      [right; reflexivity |].
    destruct (String.eqb p "annual"); left; reflexivity.
Qed.

(** ** Verification cannot extend a license *)


Lemma advance_clock_0 w : advance_clock 0 w = w.
Proof. destruct w; reflexivity. Qed.

Section Advancing.

Variable jws_decode : string -> option Claims.



End Advancing.



